(** * clientv3/kv.go: the request dispatcher of the etcd v3 client

    A shallow embedding of [clientv3/kv.go]: the [kv] struct with its mutex,
    connection handle and stub, the retry loop [do], the connection rotation
    [switchRemote], the guarded read [getRemote], [Compact], [NewKV] and the
    three wrappers [Put], [Get], [Delete].

    The code is stateful and talks to two collaborators (the gRPC stub and
    the client's connection pool).  It is embedded in a small state monad
    whose state holds the [kv] struct, the state of the outside world, the
    goroutines started with [go] that have not run yet, and a log of every
    observable step (mutex operations, accesses of the guarded fields, RPC
    attempts, calls of [retryConnection], [go] statements), each stamped with
    the state of the mutex at that moment. *)

From Stdlib Require Import List String ZArith Bool Arith Lia.
Import ListNotations.
Local Open Scope string_scope.
Local Open Scope list_scope.

(** ** Data *)

(** Go's [[]byte] and [string]: keys and values are byte sequences. *)
Definition bytes := list Byte.byte.

(** An [error] value is identified by its message ([Error() string]); the
    nil error is [None] of [option error]. *)
Definition error := string.

(** [*grpc.ClientConn] and [*Client]: handles, identified by a number. *)
Inductive ClientConn := Conn (id : nat).
Inductive Client := ClientRef (id : nat).

(** [context.Context] is only passed through to the stub. *)
Inductive context := Ctx (id : nat).

(** Modelled from the spec: the stub ("the RPC client bound to
    [currentConnection]") is built by the generated [pb.NewKVClient], which is
    not among the sources; a stub is the connection it was built from. *)
Record KVClient := NewKVClient { cc : ClientConn }.

(** Modelled from the spec: the kind of an Operation Descriptor, "enum
    {Range, Put, DeleteRange, Txn}".  [kv.go] names [tRange], [tPut] and
    [tDeleteRange]; the declaration is in a file that is not among the
    sources. *)
Inductive opType := tRange | tPut | tDeleteRange | tTxn.

(** Modelled from the spec: "[sortSpec]: optional (order, target) pair".
    [kv.go] reads [op.sort.Order] and [op.sort.Target] and converts each to
    the enumeration of the wire format; the enumerations are integers. *)
Record SortOption := { Target : Z; Order : Z }.

(** Modelled from the spec: the Operation Descriptor, with the fields
    [kv.go] reads ([op.t], [op.key], [op.end], [op.limit], [op.rev],
    [op.sort], [op.val], [op.leaseID]); keys and values are byte sequences,
    [limit], [rev] and [leaseID] signed integers, [sort] may be nil.  [end]
    is a keyword, hence [end_]. *)
Record Op := {
  t : opType;
  key : bytes;
  end_ : bytes;
  limit : Z;
  rev : Z;
  sort : option SortOption;
  val : bytes;
  leaseID : Z
}.

(** The wire requests of the generated package [pb], with the fields [kv.go]
    sets.  A field that is not set keeps Go's zero value. *)
Record RangeRequest := {
  RangeRequest_Key : bytes;
  RangeRequest_RangeEnd : bytes;
  RangeRequest_Limit : Z;
  RangeRequest_Revision : Z;
  RangeRequest_SortOrder : Z;
  RangeRequest_SortTarget : Z
}.

Record PutRequest := {
  PutRequest_Key : bytes;
  PutRequest_Value : bytes;
  PutRequest_Lease : Z
}.

Record DeleteRangeRequest := {
  DeleteRangeRequest_Key : bytes;
  DeleteRangeRequest_RangeEnd : bytes
}.

Record CompactionRequest := { CompactionRequest_Revision : Z }.

(** Modelled from the spec: [isWrite] is declared next to [Op], outside the
    sources.  The spec names the write operations "(Put, DeleteRange, Txn
    with any write branch)" and the read operation "(Range)"; a descriptor
    carries no branches, so a Txn descriptor counts as a write. *)
Definition isWrite (op : Op) : bool :=
  match t op with
  | tRange => false
  | tPut | tDeleteRange | tTxn => true
  end.

(** ** Collaborators

    What [kv.go] consumes from the rest of the package and from the
    generated gRPC code.  The outside world (network, servers, the client's
    connection pool) is a state [World]; a call into it returns a result and
    the next state of the world.  A call that can fail returns either its
    value or a non-nil error, as the generated stubs do. *)
Class Collaborators := {
  World : Type;
  RangeResponse : Type;
  PutResponse : Type;
  DeleteRangeResponse : Type;
  CompactionResponse : Type;
  (** [isRPCError(err)]: the remote answered with an application error. *)
  isRPCError : error -> bool;
  (** [c.ActiveConnection()]: reads the current connection of the client.
      The client is shared with whoever else uses it, so the world a call
      leaves is the world the next call finds, and it may have moved on. *)
  ActiveConnection : Client -> World -> ClientConn * World;
  (** [c.retryConnection(oldConn, err)]. *)
  retryConnection :
    Client -> ClientConn -> error -> World -> (ClientConn + error) * World;
  (** The methods of the [pb.KVClient] interface that [kv.go] calls. *)
  KVClient_Range :
    KVClient -> context -> RangeRequest -> World -> (RangeResponse + error) * World;
  KVClient_Put :
    KVClient -> context -> PutRequest -> World -> (PutResponse + error) * World;
  KVClient_DeleteRange :
    KVClient -> context -> DeleteRangeRequest -> World ->
    (DeleteRangeResponse + error) * World;
  KVClient_Compact :
    KVClient -> context -> CompactionRequest -> World ->
    (CompactionResponse + error) * World;
  (** The conversions [pb.RangeRequest_SortOrder(_)] and
      [pb.RangeRequest_SortTarget(_)] between the enumerations of the client
      and of the wire format. *)
  pb_SortOrder : Z -> Z;
  pb_SortTarget : Z -> Z
}.

Section Dispatcher.
Context `{Collaborators}.

(** [pb.ResponseUnion]: the tagged union [do] wraps a reply in, with the
    three variants [kv.go] builds. *)
Inductive ResponseUnion :=
| ResponseUnion_ResponseRange (ResponseRange : RangeResponse)
| ResponseUnion_ResponsePut (ResponsePut : PutResponse)
| ResponseUnion_ResponseDeleteRange (ResponseDeleteRange : DeleteRangeResponse).

(** Modelled from the spec: the generated getters are not among the
    sources; "the caller unwraps the variant matching the originating kind".
    A getter answers nil on a nil union and on another variant. *)
Definition GetResponsePut (r : option ResponseUnion) : option PutResponse :=
  match r with
  | Some (ResponseUnion_ResponsePut x) => Some x
  | _ => None
  end.

(** Modelled from the spec: the generated getter of the Range variant. *)
Definition GetResponseRange (r : option ResponseUnion) : option RangeResponse :=
  match r with
  | Some (ResponseUnion_ResponseRange x) => Some x
  | _ => None
  end.

(** Modelled from the spec: the generated getter of the DeleteRange
    variant. *)
Definition GetResponseDeleteRange (r : option ResponseUnion)
  : option DeleteRangeResponse :=
  match r with
  | Some (ResponseUnion_ResponseDeleteRange x) => Some x
  | _ => None
  end.

(** ** The dispatcher state *)

(** [type kv struct]: [mu] is [true] while the mutex is held. *)
Record kv := {
  c : Client;
  mu : bool;
  conn : ClientConn;
  remote : KVClient
}.

Inductive field := fConn | fRemote.

(** What a run leaves in the log. *)
Inductive event :=
| EvLock
| EvUnlock
| EvRead (f : field)
| EvWrite (f : field)
| EvRange (stub : KVClient) (ctx : context) (r : RangeRequest)
    (out : RangeResponse + error)
| EvPut (stub : KVClient) (ctx : context) (r : PutRequest)
    (out : PutResponse + error)
| EvDeleteRange (stub : KVClient) (ctx : context) (r : DeleteRangeRequest)
    (out : DeleteRangeResponse + error)
| EvCompact (stub : KVClient) (ctx : context) (r : CompactionRequest)
    (out : CompactionResponse + error)
| EvRetryConnection (old : ClientConn) (prevErr : error)
    (out : ClientConn + error)
| EvGo (prevErr : error).

(** A log entry: the state of the mutex when the step was taken ([true]
    when it was held), and the step. *)
Definition entry := (bool * event)%type.

Record St := {
  self : kv;
  world : World;
  (** [go kv.switchRemote(err)] statements whose goroutine has not run. *)
  goroutines : list error;
  trace : list entry
}.

Definition set_self (k : kv) (s : St) : St :=
  {| self := k; world := world s; goroutines := goroutines s; trace := trace s |}.
Definition set_world (w : World) (s : St) : St :=
  {| self := self s; world := w; goroutines := goroutines s; trace := trace s |}.
Definition set_mu (b : bool) (k : kv) : kv :=
  {| c := c k; mu := b; conn := conn k; remote := remote k |}.
Definition set_conn (x : ClientConn) (k : kv) : kv :=
  {| c := c k; mu := mu k; conn := x; remote := remote k |}.
Definition set_remote (x : KVClient) (k : kv) : kv :=
  {| c := c k; mu := mu k; conn := conn k; remote := x |}.
Definition log (e : event) (s : St) : St :=
  {| self := self s; world := world s; goroutines := goroutines s;
     trace := trace s ++ [(mu (self s), e)] |}.
Definition spawn (e : error) (s : St) : St :=
  {| self := self s; world := world s; goroutines := goroutines s ++ [e];
     trace := trace s |}.

(** ** The monad

    A computation either returns, panics, blocks for ever on the mutex, or
    (only the retry loop) runs out of the fuel it was given. *)
Inductive result (A : Type) :=
| Done (a : A) (s : St)
| Panicked (msg : string) (s : St)
| Blocked (s : St)
| OutOfFuel.
Arguments Done {A}.
Arguments Panicked {A}.
Arguments Blocked {A}.
Arguments OutOfFuel {A}.

Definition M (A : Type) := St -> result A.

Definition ret {A} (a : A) : M A := fun s => Done a s.

Definition bind {A B} (m : M A) (k : A -> M B) : M B :=
  fun s =>
    match m s with
    | Done a s' => k a s'
    | Panicked msg s' => Panicked msg s'
    | Blocked s' => Blocked s'
    | OutOfFuel => OutOfFuel
    end.

Notation "x <- m ;; k" := (bind m (fun x => k))
  (at level 61, m at next level, right associativity).
Notation "m ;; k" := (bind m (fun _ => k))
  (at level 61, right associativity).

Definition panic {A} (msg : string) : M A := fun s => Panicked msg s.

(** [kv.mu.Lock()]: blocks while the mutex is held. *)
Definition Lock : M unit :=
  fun s =>
    if mu (self s) then Blocked s
    else Done tt (set_self (set_mu true (self s)) (log EvLock s)).

(** [kv.mu.Unlock()]: unlocking a mutex that is not locked is fatal. *)
Definition Unlock : M unit :=
  fun s =>
    if mu (self s)
    then Done tt (set_self (set_mu false (self s)) (log EvUnlock s))
    else Panicked "sync: unlock of unlocked mutex" s.

Definition read_conn : M ClientConn :=
  fun s => Done (conn (self s)) (log (EvRead fConn) s).
Definition read_remote : M KVClient :=
  fun s => Done (remote (self s)) (log (EvRead fRemote) s).
Definition write_conn (x : ClientConn) : M unit :=
  fun s => Done tt (set_self (set_conn x (self s)) (log (EvWrite fConn) s)).
Definition write_remote (x : KVClient) : M unit :=
  fun s => Done tt (set_self (set_remote x (self s)) (log (EvWrite fRemote) s)).

(** A call into the world: the world moves on and the call is logged with
    its outcome. *)
Definition call {A} (f : World -> A * World) (ev : A -> event) : M A :=
  fun s =>
    let (a, w) := f (world s) in
    Done a (set_world w (log (ev a) s)).

(** [go kv.switchRemote(err)]: the goroutine is started, not run. *)
Definition go_switchRemote (err : error) : M unit :=
  fun s => Done tt (spawn err (log (EvGo err) s)).

(** ** The code of [kv.go] *)

(** [func (kv *kv) getRemote() pb.KVClient] *)
Definition getRemote : M KVClient :=
  Lock ;;
  r <- read_remote ;;
  Unlock ;;
  ret r.

(** [func (kv *kv) switchRemote(prevErr error) error] *)
Definition switchRemote (prevErr : error) : M (option error) :=
  old <- read_conn ;;
  res <- (fun s => call (retryConnection (c (self s)) old prevErr)
                        (EvRetryConnection old prevErr) s) ;;
  match res with
  | inr err => ret (Some err)
  | inl newConn =>
      Lock ;;
      write_conn newConn ;;
      cur <- read_conn ;;
      write_remote (NewKVClient cur) ;;
      Unlock ;;
      ret None
  end.

(** [switchRemote] up to and including [kv.conn = newConn]: as far as a
    goroutine has got when another one is scheduled between the two
    assignments of its critical section. *)
Definition switchRemote_upto_conn (prevErr : error) : M unit :=
  old <- read_conn ;;
  res <- (fun s => call (retryConnection (c (self s)) old prevErr)
                        (EvRetryConnection old prevErr) s) ;;
  match res with
  | inr err => ret tt
  | inl newConn =>
      Lock ;;
      write_conn newConn
  end.

(** The requests [do] builds, one per [case]. *)
Definition rangeRequest (op : Op) : RangeRequest :=
  let r := {| RangeRequest_Key := key op; RangeRequest_RangeEnd := end_ op;
              RangeRequest_Limit := limit op; RangeRequest_Revision := rev op;
              RangeRequest_SortOrder := 0; RangeRequest_SortTarget := 0 |} in
  match sort op with
  | Some so =>
      {| RangeRequest_Key := RangeRequest_Key r;
         RangeRequest_RangeEnd := RangeRequest_RangeEnd r;
         RangeRequest_Limit := RangeRequest_Limit r;
         RangeRequest_Revision := RangeRequest_Revision r;
         RangeRequest_SortOrder := pb_SortOrder (Order so);
         RangeRequest_SortTarget := pb_SortTarget (Target so) |}
  | None => r
  end.

Definition putRequest (op : Op) : PutRequest :=
  {| PutRequest_Key := key op; PutRequest_Value := val op;
     PutRequest_Lease := leaseID op |}.

Definition deleteRangeRequest (op : Op) : DeleteRangeRequest :=
  {| DeleteRangeRequest_Key := key op; DeleteRangeRequest_RangeEnd := end_ op |}.

(** What the Go function returns: a [*pb.ResponseUnion] and an [error]. *)
Definition doResult := (option ResponseUnion * option error)%type.

(** The part of the loop body after the [switch]: [err] is the non-nil
    error of the attempt.  [inl tt] goes round the loop again. *)
Definition afterFailure (op : Op) (err : error) : M (unit + doResult) :=
  if isRPCError err then ret (inr (None, Some err))
  else if isWrite op then
    go_switchRemote err ;;
    ret (inr (None, Some err))
  else
    nerr <- switchRemote err ;;
    match nerr with
    | Some e => ret (inr (None, Some e))
    | None => ret (inl tt)
    end.

(** One pass through the body of [for { ... }] in [do]. *)
Definition doBody (ctx : context) (op : Op) : M (unit + doResult) :=
  match t op with
  | tRange =>
      let r := rangeRequest op in
      stub <- getRemote ;;
      out <- call (KVClient_Range stub ctx r) (EvRange stub ctx r) ;;
      match out with
      | inl resp => ret (inr (Some (ResponseUnion_ResponseRange resp), None))
      | inr err => afterFailure op err
      end
  | tPut =>
      let r := putRequest op in
      stub <- getRemote ;;
      out <- call (KVClient_Put stub ctx r) (EvPut stub ctx r) ;;
      match out with
      | inl resp => ret (inr (Some (ResponseUnion_ResponsePut resp), None))
      | inr err => afterFailure op err
      end
  | tDeleteRange =>
      let r := deleteRangeRequest op in
      stub <- getRemote ;;
      out <- call (KVClient_DeleteRange stub ctx r) (EvDeleteRange stub ctx r) ;;
      match out with
      | inl resp =>
          ret (inr (Some (ResponseUnion_ResponseDeleteRange resp), None))
      | inr err => afterFailure op err
      end
  | _ => panic "Unknown op"
  end.

(** [func (kv *kv) do(ctx, op)]: the loop has no exit of its own; [fuel]
    bounds the number of passes that are run. *)
Fixpoint do (fuel : nat) (ctx : context) (op : Op) : M doResult :=
  match fuel with
  | O => fun _ => OutOfFuel
  | S fuel' =>
      x <- doBody ctx op ;;
      match x with
      | inr r => ret r
      | inl _ => do fuel' ctx op
      end
  end.

(** [func (kv *kv) Compact(ctx, rev int64) error] *)
Definition Compact (ctx : context) (rev : Z) : M (option error) :=
  let r := {| CompactionRequest_Revision := rev |} in
  stub <- getRemote ;;
  out <- call (KVClient_Compact stub ctx r) (EvCompact stub ctx r) ;;
  match out with
  | inl _ => ret None
  | inr err =>
      if isRPCError err then ret (Some err)
      else
        go_switchRemote err ;;
        ret (Some err)
  end.

(** [func NewKV(c *Client) KV]: [ActiveConnection] is called twice, first
    for the local [conn] the stub is built from, then again for the [conn]
    field; the second call finds the world the first one left.  The mutex
    starts unlocked. *)
Definition NewKV (cl : Client) (w : World) : kv * World :=
  let (conn0, w1) := ActiveConnection cl w in
  let remote0 := NewKVClient conn0 in
  let (conn1, w2) := ActiveConnection cl w1 in
  ({| c := cl; mu := false; conn := conn1; remote := remote0 |}, w2).

(** Modelled from the spec: the options are declared outside the sources.
    "Each option is a pure function that mutates only the fields it owns
    (range end, revision, limit, sort, lease id)".  [kv.go] names
    [WithRange], [WithRev], [WithLimit] and [WithSort]. *)
Inductive OpOption :=
| WithRange (endKey : string)
| WithRev (r : Z)
| WithLimit (n : Z)
| WithSort (target order : Z)
| WithLease (id : Z).

(** Modelled from the spec: what an option does to a descriptor. *)
Definition applyOpt (op : Op) (o : OpOption) : Op :=
  match o with
  | WithRange e =>
      {| t := t op; key := key op; end_ := list_byte_of_string e;
         limit := limit op; rev := rev op; sort := sort op; val := val op;
         leaseID := leaseID op |}
  | WithRev r =>
      {| t := t op; key := key op; end_ := end_ op; limit := limit op;
         rev := r; sort := sort op; val := val op; leaseID := leaseID op |}
  | WithLimit n =>
      {| t := t op; key := key op; end_ := end_ op; limit := n;
         rev := rev op; sort := sort op; val := val op; leaseID := leaseID op |}
  | WithSort tg o =>
      {| t := t op; key := key op; end_ := end_ op; limit := limit op;
         rev := rev op; sort := Some {| Target := tg; Order := o |};
         val := val op; leaseID := leaseID op |}
  | WithLease id =>
      {| t := t op; key := key op; end_ := end_ op; limit := limit op;
         rev := rev op; sort := sort op; val := val op; leaseID := id |}
  end.

(** Modelled from the spec: "options compose by sequential application",
    the last one applied wins. *)
Definition applyOpts (op : Op) (opts : list OpOption) : Op :=
  fold_left applyOpt opts op.

(** Modelled from the spec: "applying zero options yields the documented
    default (single-key lookup/write at current revision, no limit, no
    sort)". *)
Definition newOp (k : opType) (key0 val0 : string) : Op :=
  {| t := k; key := list_byte_of_string key0; end_ := []; limit := 0;
     rev := 0; sort := None; val := list_byte_of_string val0; leaseID := 0 |}.

(** Modelled from the spec: the factory functions [OpPut], [OpGet] and
    [OpDelete], which "take a key (and value, for Put) plus a variadic list
    of named options". *)
Definition OpPut (key0 val0 : string) (opts : list OpOption) : Op :=
  applyOpts (newOp tPut key0 val0) opts.

(** Modelled from the spec: see [OpPut]. *)
Definition OpGet (key0 : string) (opts : list OpOption) : Op :=
  applyOpts (newOp tRange key0 "") opts.

(** Modelled from the spec: see [OpPut]. *)
Definition OpDelete (key0 : string) (opts : list OpOption) : Op :=
  applyOpts (newOp tDeleteRange key0 "") opts.

(** [func (kv *kv) Put(ctx, key, val string, opts ...OpOption)] *)
Definition Put (fuel : nat) (ctx : context) (key0 val0 : string)
    (opts : list OpOption) : M (option PutResponse * option error) :=
  res <- do fuel ctx (OpPut key0 val0 opts) ;;
  match snd res with
  | Some err => ret (None, Some err)
  | None => ret (GetResponsePut (fst res), None)
  end.

(** [func (kv *kv) Get(ctx, key string, opts ...OpOption)] *)
Definition Get (fuel : nat) (ctx : context) (key0 : string)
    (opts : list OpOption) : M (option RangeResponse * option error) :=
  res <- do fuel ctx (OpGet key0 opts) ;;
  match snd res with
  | Some err => ret (None, Some err)
  | None => ret (GetResponseRange (fst res), None)
  end.

(** [func (kv *kv) Delete(ctx, key string, opts ...OpOption)] *)
Definition Delete (fuel : nat) (ctx : context) (key0 : string)
    (opts : list OpOption) : M (option DeleteRangeResponse * option error) :=
  res <- do fuel ctx (OpDelete key0 opts) ;;
  match snd res with
  | Some err => ret (None, Some err)
  | None => ret (GetResponseDeleteRange (fst res), None)
  end.

(** The scheduler runs the oldest goroutine that is pending: the body of
    [go kv.switchRemote(err)], whose result is dropped. *)
Definition runGoroutine : M unit :=
  fun s =>
    match goroutines s with
    | [] => Done tt s
    | err :: rest =>
        (switchRemote err ;; ret tt)
          {| self := self s; world := world s; goroutines := rest;
             trace := trace s |}
    end.

(** ** Vocabulary of the statements *)

(** The log entries of a call of [getRemote] that finds the mutex free. *)
Definition getRemoteLog : list entry :=
  [(false, EvLock); (true, EvRead fRemote); (true, EvUnlock)].

(** An RPC attempt on the stub. *)
Definition isRPC (e : entry) : bool :=
  match snd e with
  | EvRange _ _ _ _ | EvPut _ _ _ _ | EvDeleteRange _ _ _ _
  | EvCompact _ _ _ _ => true
  | _ => false
  end.

(** A rotation run by the caller itself: a call of [retryConnection]. *)
Definition isAwaitedRotation (e : entry) : bool :=
  match snd e with
  | EvRetryConnection _ _ _ => true
  | _ => false
  end.

(** A rotation handed to a goroutine. *)
Definition isGo (e : entry) : bool :=
  match snd e with
  | EvGo _ => true
  | _ => false
  end.

(** An access of the guarded pair ([conn], [remote]). *)
Definition isAccess (e : entry) : bool :=
  match snd e with
  | EvRead _ | EvWrite _ => true
  | _ => false
  end.

Definition count (p : entry -> bool) (tr : list entry) : nat :=
  List.length (filter p tr).

Definition rpcAttempts := count isRPC.
Definition awaitedRotations := count isAwaitedRotation.
Definition goStatements := count isGo.

Definition wrap {A} (f : A -> ResponseUnion) (out : A + error)
  : ResponseUnion + error :=
  match out with
  | inl a => inl (f a)
  | inr e => inr e
  end.

(** The attempt a pass of [do] makes for [op] on [stub] in world [w]: the
    step it logs, the outcome (a reply already wrapped), the next world. *)
Definition attempt (ctx : context) (op : Op) (stub : KVClient) (w : World)
  : option (event * (ResponseUnion + error) * World) :=
  match t op with
  | tRange =>
      let r := rangeRequest op in
      let (out, w') := KVClient_Range stub ctx r w in
      Some (EvRange stub ctx r out, wrap ResponseUnion_ResponseRange out, w')
  | tPut =>
      let r := putRequest op in
      let (out, w') := KVClient_Put stub ctx r w in
      Some (EvPut stub ctx r out, wrap ResponseUnion_ResponsePut out, w')
  | tDeleteRange =>
      let r := deleteRangeRequest op in
      let (out, w') := KVClient_DeleteRange stub ctx r w in
      Some (EvDeleteRange stub ctx r out,
            wrap ResponseUnion_ResponseDeleteRange out, w')
  | tTxn => None
  end.

(** The pair invariant: the stub is the client of the stored connection. *)
Definition consistent (k : kv) : Prop := remote k = NewKVClient (conn k).

(** The state a step leaves when it only moves the world and the log. *)
Definition after (s : St) (w : World) (tr : list entry) : St :=
  {| self := self s; world := w; goroutines := goroutines s;
     trace := trace s ++ tr |}.

(** The [kv] struct after a rotation to [newConn]. *)
Definition rotated (k : kv) (newConn : ClientConn) : kv :=
  {| c := c k; mu := false; conn := newConn; remote := NewKVClient newConn |}.

(** The log entries of a call of [switchRemote] that installs [newConn]. *)
Definition switchRemoteLog (old : ClientConn) (prevErr : error)
    (newConn : ClientConn) : list entry :=
  [(false, EvRead fConn);
   (false, EvRetryConnection old prevErr (inl newConn));
   (false, EvLock); (true, EvWrite fConn); (true, EvRead fConn);
   (true, EvWrite fRemote); (true, EvUnlock)].

(** Every access of the guarded pair in [tr] is made with the mutex held. *)
Definition guarded (tr : list entry) : bool :=
  forallb (fun e => implb (isAccess e) (fst e)) tr.

(** [ev] is the call of the RPC method of [op]'s kind, on [stub], with
    [ctx] and the request built from [op]. *)
Definition sends (ctx : context) (op : Op) (stub : KVClient) (ev : event)
  : Prop :=
  match ev with
  | EvRange stub' ctx' r _ =>
      t op = tRange /\ stub' = stub /\ ctx' = ctx /\ r = rangeRequest op
  | EvPut stub' ctx' r _ =>
      t op = tPut /\ stub' = stub /\ ctx' = ctx /\ r = putRequest op
  | EvDeleteRange stub' ctx' r _ =>
      t op = tDeleteRange /\ stub' = stub /\ ctx' = ctx
      /\ r = deleteRangeRequest op
  | _ => False
  end.

(** The kind whose reply a union carries. *)
Definition variant (ru : ResponseUnion) : opType :=
  match ru with
  | ResponseUnion_ResponseRange _ => tRange
  | ResponseUnion_ResponsePut _ => tPut
  | ResponseUnion_ResponseDeleteRange _ => tDeleteRange
  end.

(** The three ways the loop of [do] ends for a Range descriptor, each with
    the last entry the call leaves in the log: the attempt succeeded, the
    attempt failed with an RPC-level error, or the rotation after a
    transport failure failed. *)
Definition RangeExit (ctx : context) (op : Op) (r : doResult) (e : entry)
  : Prop :=
  (exists stub resp,
      r = (Some (ResponseUnion_ResponseRange resp), None)
      /\ e = (false, EvRange stub ctx (rangeRequest op) (inl resp)))
  \/ (exists stub err,
      r = (None, Some err) /\ isRPCError err = true
      /\ e = (false, EvRange stub ctx (rangeRequest op) (inr err)))
  \/ (exists old err nerr,
      r = (None, Some nerr) /\ isRPCError err = false
      /\ e = (false, EvRetryConnection old err (inr nerr))).

(** Modelled from the spec: the Transaction Handle [txn] is declared outside
    the sources; [kv.go] fills its fields [kv] and [ctx].  The dispatcher it
    points to is the one of the state. *)
Record txn := { txn_ctx : context }.

(** [func (kv *kv) Txn(ctx context.Context) Txn] *)
Definition Txn (ctx : context) : M txn := ret {| txn_ctx := ctx |}.

(** A call that leaves the process: an RPC or a call of the pool. *)
Definition isIO (e : entry) : bool :=
  match snd e with
  | EvRange _ _ _ _ | EvPut _ _ _ _ | EvDeleteRange _ _ _ _
  | EvCompact _ _ _ _ | EvRetryConnection _ _ _ => true
  | _ => false
  end.

(** Every call that leaves the process is made with the mutex free. *)
Definition ioOutsideLock (tr : list entry) : bool :=
  forallb (fun e => implb (isIO e) (negb (fst e))) tr.

(** Every write of the guarded pair is made with the mutex held. *)
Definition writesUnderLock (tr : list entry) : bool :=
  forallb (fun e => match snd e with EvWrite _ => fst e | _ => true end) tr.

(** A call of the pool that handed out a connection. *)
Definition isInstalled (e : entry) : bool :=
  match snd e with
  | EvRetryConnection _ _ (inl _) => true
  | _ => false
  end.

(** A call of the pool that failed. *)
Definition isRefused (e : entry) : bool :=
  match snd e with
  | EvRetryConnection _ _ (inr _) => true
  | _ => false
  end.

(** An RPC entry is a call of the method of [op]'s kind with [ctx] and the
    request built from [op]; other entries are not constrained. *)
Definition resends (ctx : context) (op : Op) (e : entry) : Prop :=
  match snd e with
  | EvRange _ ctx' r _ => t op = tRange /\ ctx' = ctx /\ r = rangeRequest op
  | EvPut _ ctx' r _ => t op = tPut /\ ctx' = ctx /\ r = putRequest op
  | EvDeleteRange _ ctx' r _ =>
      t op = tDeleteRange /\ ctx' = ctx /\ r = deleteRangeRequest op
  | EvCompact _ _ _ _ => False
  | _ => True
  end.

(** An RPC entry is a call of the method of [op]'s kind whose request has
    the fields of [op]; other entries are not constrained. *)
Definition carries (op : Op) (e : entry) : Prop :=
  match snd e with
  | EvRange _ _ r _ =>
      t op = tRange
      /\ RangeRequest_Key r = key op
      /\ RangeRequest_RangeEnd r = end_ op
      /\ RangeRequest_Limit r = limit op
      /\ RangeRequest_Revision r = rev op
      /\ match sort op with
         | Some so =>
             RangeRequest_SortOrder r = pb_SortOrder (Order so)
             /\ RangeRequest_SortTarget r = pb_SortTarget (Target so)
         | None =>
             RangeRequest_SortOrder r = 0%Z
             /\ RangeRequest_SortTarget r = 0%Z
         end
  | EvPut _ _ r _ =>
      t op = tPut
      /\ PutRequest_Key r = key op
      /\ PutRequest_Value r = val op
      /\ PutRequest_Lease r = leaseID op
  | EvDeleteRange _ _ r _ =>
      t op = tDeleteRange
      /\ DeleteRangeRequest_Key r = key op
      /\ DeleteRangeRequest_RangeEnd r = end_ op
  | EvCompact _ _ _ _ => False
  | _ => True
  end.

(** The error [err] is the outcome of an RPC or of a call of the pool. *)
Definition failsWith (err : error) (e : entry) : Prop :=
  match snd e with
  | EvRange _ _ _ (inr x) | EvPut _ _ _ (inr x) | EvDeleteRange _ _ _ (inr x)
  | EvCompact _ _ _ (inr x) | EvRetryConnection _ _ (inr x) => x = err
  | _ => False
  end.

(** The runs of the loop of [do] that return, pass by pass: the four ways a
    pass ends the call, and the pass that rotates and goes round. *)
Inductive DoRun (ctx : context) (op : Op) : St -> doResult -> St -> Prop :=
| run_reply s ev ru w' :
    attempt ctx op (remote (self s)) (world s) = Some (ev, inl ru, w') ->
    DoRun ctx op s (Some ru, None)
      (after s w' (getRemoteLog ++ [(false, ev)]))
| run_rpc_error s ev err w' :
    attempt ctx op (remote (self s)) (world s) = Some (ev, inr err, w') ->
    isRPCError err = true ->
    DoRun ctx op s (None, Some err)
      (after s w' (getRemoteLog ++ [(false, ev)]))
| run_write_error s ev err w' :
    attempt ctx op (remote (self s)) (world s) = Some (ev, inr err, w') ->
    isRPCError err = false -> isWrite op = true ->
    DoRun ctx op s (None, Some err)
      {| self := self s; world := w'; goroutines := goroutines s ++ [err];
         trace := trace s ++ getRemoteLog ++ [(false, ev); (false, EvGo err)] |}
| run_rotation_failed s ev err w' nerr w2 :
    attempt ctx op (remote (self s)) (world s) = Some (ev, inr err, w') ->
    isRPCError err = false -> isWrite op = false ->
    retryConnection (c (self s)) (conn (self s)) err w' = (inr nerr, w2) ->
    DoRun ctx op s (None, Some nerr)
      (after s w2
         (getRemoteLog ++
          [(false, ev); (false, EvRead fConn);
           (false, EvRetryConnection (conn (self s)) err (inr nerr))]))
| run_retry s ev err w' newConn w2 r s' :
    attempt ctx op (remote (self s)) (world s) = Some (ev, inr err, w') ->
    isRPCError err = false -> isWrite op = false ->
    retryConnection (c (self s)) (conn (self s)) err w' = (inl newConn, w2) ->
    DoRun ctx op
      {| self := rotated (self s) newConn; world := w2;
         goroutines := goroutines s;
         trace := trace s ++
                  (getRemoteLog ++ [(false, ev)]) ++
                  switchRemoteLog (conn (self s)) err newConn |}
      r s' ->
    DoRun ctx op s r s'.

End Dispatcher.

Arguments Done {H A}.
Arguments Panicked {H A}.
Arguments Blocked {H A}.
Arguments OutOfFuel {H A}.

(** ** Two concrete worlds *)

(** What a scripted world answers to the next call. *)
Inductive answer := Reply | Fail (e : error).

Definition nextConn (old : ClientConn) : ClientConn :=
  match old with Conn n => Conn (S n) end.

Definition connId (x : ClientConn) : nat := match x with Conn n => n end.

(** The next call into a scripted world takes the head of the script: an
    RPC that gets [Reply] answers with the number of the connection that
    served it, a rotation that gets [Reply] hands out the next connection;
    an exhausted script fails every call. *)
Definition scriptedCall {A} (a : A) (w : list answer)
  : (A + error) * list answer :=
  match w with
  | Reply :: w' => (inl a, w')
  | Fail e :: w' => (inr e, w')
  | [] => (inr "context deadline exceeded", [])
  end.

Definition scripted : Collaborators :=
  {| World := list answer;
     RangeResponse := nat;
     PutResponse := nat;
     DeleteRangeResponse := nat;
     CompactionResponse := nat;
     isRPCError := String.prefix "etcdserver: ";
     ActiveConnection := fun _ w => (Conn 0, w);
     retryConnection := fun _ old _ => scriptedCall (nextConn old);
     KVClient_Range := fun stub _ _ => scriptedCall (connId (cc stub));
     KVClient_Put := fun stub _ _ => scriptedCall (connId (cc stub));
     KVClient_DeleteRange := fun stub _ _ => scriptedCall (connId (cc stub));
     KVClient_Compact := fun stub _ _ => scriptedCall (connId (cc stub));
     pb_SortOrder := fun z => z;
     pb_SortTarget := fun z => z |}.

(** A world in which no endpoint ever answers and the pool always has
    another connection to hand out. *)
Definition unreachable : Collaborators :=
  {| World := unit;
     RangeResponse := nat;
     PutResponse := nat;
     DeleteRangeResponse := nat;
     CompactionResponse := nat;
     isRPCError := String.prefix "etcdserver: ";
     ActiveConnection := fun _ w => (Conn 0, w);
     retryConnection := fun _ old _ w => (inl (nextConn old), w);
     KVClient_Range := fun _ _ _ w => (inr "connection refused", w);
     KVClient_Put := fun _ _ _ w => (inr "connection refused", w);
     KVClient_DeleteRange := fun _ _ _ w => (inr "connection refused", w);
     KVClient_Compact := fun _ _ _ w => (inr "connection refused", w);
     pb_SortOrder := fun z => z;
     pb_SortTarget := fun z => z |}.

(** A dispatcher as [NewKV] builds it, before any call. *)
Definition fresh (E : Collaborators) (w : @World E) : @St E :=
  {| self := fst (NewKV (ClientRef 0) w); world := snd (NewKV (ClientRef 0) w);
     goroutines := []; trace := [] |}.

(** A client whose connection is being replaced by other users while it is
    read: the world is the list of connections that the successive reads of
    the client find; every RPC and every call of the pool fails. *)
Definition handover : Collaborators :=
  {| World := list ClientConn;
     RangeResponse := nat;
     PutResponse := nat;
     DeleteRangeResponse := nat;
     CompactionResponse := nat;
     isRPCError := String.prefix "etcdserver: ";
     ActiveConnection :=
       fun _ w => match w with
                  | x :: w' => (x, w')
                  | [] => (Conn 0, [])
                  end;
     retryConnection := fun _ _ _ w => (inr "no available endpoint", w);
     KVClient_Range := fun _ _ _ w => (inr "context deadline exceeded", w);
     KVClient_Put := fun _ _ _ w => (inr "context deadline exceeded", w);
     KVClient_DeleteRange :=
       fun _ _ _ w => (inr "context deadline exceeded", w);
     KVClient_Compact := fun _ _ _ w => (inr "context deadline exceeded", w);
     pb_SortOrder := fun z => z;
     pb_SortTarget := fun z => z |}.

(** [k] transport failures, each followed by a rotation that succeeds, and
    then a reply. *)
Fixpoint flaky (k : nat) : list answer :=
  match k with
  | O => [Reply]
  | S k' => Fail "transport is closing" :: Reply :: flaky k'
  end.

(** A dispatcher built by [NewKV] and caught in the middle of its first
    rotation, between the two assignments of [switchRemote]: the mutex is
    held, [conn] is already the new connection, [remote] is still the stub
    of the old one. *)
Definition midSwap (w : @World scripted) : @St scripted :=
  @Build_St scripted
    {| c := ClientRef 0; mu := true; conn := Conn 1;
       remote := NewKVClient (Conn 0) |}
    w []
    [(false, EvRead fConn);
     (false, EvRetryConnection (Conn 0) "transport is closing" (inl (Conn 1)));
     (false, EvLock); (true, EvWrite fConn)].

(** ** Steps of the code *)

Section Steps.
Context `{Collaborators}.

Ltac prims :=
  unfold bind, ret, panic, Lock, Unlock, read_conn, read_remote, write_conn,
    write_remote, call, go_switchRemote, set_self, set_world, set_mu,
    set_conn, set_remote, log, spawn, after; cbn.

Lemma getRemote_free (s : St) :
  mu (self s) = false ->
  getRemote s = Done (remote (self s)) (after s (world s) getRemoteLog).
Proof.
  intros Hmu. unfold getRemote. prims. rewrite Hmu. cbn.
  rewrite <- !app_assoc. cbn.
  destruct s as [[? ? ? ?] ? ? ?]; cbn in *. subst. reflexivity.
Qed.

Lemma switchRemote_ok (prevErr : error) (s : St) newConn w' :
  mu (self s) = false ->
  retryConnection (c (self s)) (conn (self s)) prevErr (world s)
    = (inl newConn, w') ->
  switchRemote prevErr s =
  Done None
    {| self := rotated (self s) newConn; world := w';
       goroutines := goroutines s;
       trace := trace s ++ switchRemoteLog (conn (self s)) prevErr newConn |}.
Proof.
  intros Hmu Hrc.
  unfold switchRemote. prims. rewrite Hrc. prims. rewrite Hmu. cbn.
  unfold switchRemoteLog, rotated. rewrite <- !app_assoc. cbn. reflexivity.
Qed.

Lemma switchRemote_fail (prevErr : error) (s : St) err w' :
  retryConnection (c (self s)) (conn (self s)) prevErr (world s)
    = (inr err, w') ->
  switchRemote prevErr s =
  Done (Some err)
    {| self := self s; world := w'; goroutines := goroutines s;
       trace := trace s ++
         [(mu (self s), EvRead fConn);
          (mu (self s), EvRetryConnection (conn (self s)) prevErr (inr err))] |}.
Proof.
  intros Hrc.
  unfold switchRemote. prims. rewrite Hrc. prims.
  rewrite <- !app_assoc. reflexivity.
Qed.

Lemma attempt_isRPC ctx op stub w ev out w' :
  attempt ctx op stub w = Some (ev, out, w') -> forall b, isRPC (b, ev) = true.
Proof.
  unfold attempt. intros Hat b.
  destruct (t op);
    [ destruct (KVClient_Range _ _ _ _) | destruct (KVClient_Put _ _ _ _)
    | destruct (KVClient_DeleteRange _ _ _ _) | discriminate ];
    inversion Hat; reflexivity.
Qed.

Lemma attempt_not_Txn ctx op stub w :
  t op <> tTxn -> exists ev out w', attempt ctx op stub w = Some (ev, out, w').
Proof.
  unfold attempt. intros Hk.
  destruct (t op);
    [ destruct (KVClient_Range _ _ _ _) | destruct (KVClient_Put _ _ _ _)
    | destruct (KVClient_DeleteRange _ _ _ _) | congruence ];
    eauto.
Qed.

(** One pass of the loop: the stub is read under the mutex, the attempt is
    made on it, and a failure goes to the part after the [switch]. *)
Lemma doBody_attempt ctx op (s : St) ev out w' :
  mu (self s) = false ->
  attempt ctx op (remote (self s)) (world s) = Some (ev, out, w') ->
  doBody ctx op s =
  match out with
  | inl ru => Done (inr (Some ru, None)) (after s w' (getRemoteLog ++ [(false, ev)]))
  | inr err => afterFailure op err (after s w' (getRemoteLog ++ [(false, ev)]))
  end.
Proof.
  intros Hmu Hat. unfold attempt in Hat. unfold doBody.
  destruct (t op); try discriminate;
    unfold bind at 1; rewrite (getRemote_free s Hmu);
    unfold bind at 1; unfold call; cbn.
  - destruct (KVClient_Range _ _ _ _) as [o w1]. inversion Hat; subst.
    unfold log, set_world; cbn. rewrite Hmu, <- app_assoc.
    destruct o; reflexivity.
  - destruct (KVClient_Put _ _ _ _) as [o w1]. inversion Hat; subst.
    unfold log, set_world; cbn. rewrite Hmu, <- app_assoc.
    destruct o; reflexivity.
  - destruct (KVClient_DeleteRange _ _ _ _) as [o w1]. inversion Hat; subst.
    unfold log, set_world; cbn. rewrite Hmu, <- app_assoc.
    destruct o; reflexivity.
Qed.

Lemma doBody_Txn ctx op (s : St) :
  t op = tTxn -> doBody ctx op s = Panicked "Unknown op" s.
Proof. intros Hk. unfold doBody. rewrite Hk. reflexivity. Qed.

Lemma afterFailure_rpc op err (s : St) :
  isRPCError err = true -> afterFailure op err s = Done (inr (None, Some err)) s.
Proof. intros He. unfold afterFailure. rewrite He. reflexivity. Qed.

Lemma afterFailure_write op err (s : St) :
  isRPCError err = false -> isWrite op = true ->
  afterFailure op err s =
  Done (inr (None, Some err))
    {| self := self s; world := world s; goroutines := goroutines s ++ [err];
       trace := trace s ++ [(mu (self s), EvGo err)] |}.
Proof. intros He Hw. unfold afterFailure. rewrite He, Hw. reflexivity. Qed.

Lemma afterFailure_read op err (s : St) :
  isRPCError err = false -> isWrite op = false ->
  afterFailure op err s =
  match switchRemote err s with
  | Done (Some e) s' => Done (inr (None, Some e)) s'
  | Done None s' => Done (inl tt) s'
  | Panicked msg s' => Panicked msg s'
  | Blocked s' => Blocked s'
  | OutOfFuel => OutOfFuel
  end.
Proof.
  intros He Hw. unfold afterFailure. rewrite He, Hw. unfold bind.
  destruct (switchRemote err s) as [[e|] s'| | |]; reflexivity.
Qed.

Lemma do_S fuel ctx op (s : St) :
  do (S fuel) ctx op s =
  match doBody ctx op s with
  | Done (inr r) s' => Done r s'
  | Done (inl _) s' => do fuel ctx op s'
  | Panicked msg s' => Panicked msg s'
  | Blocked s' => Blocked s'
  | OutOfFuel => OutOfFuel
  end.
Proof.
  cbn [do]. unfold bind.
  destruct (doBody ctx op s) as [[u|r] s'| | |]; reflexivity.
Qed.

Lemma count_app p (tr tr' : list entry) :
  count p (tr ++ tr') = count p tr + count p tr'.
Proof. unfold count. rewrite filter_app, length_app. reflexivity. Qed.

Lemma attempt_Range ctx op stub w out w' :
  t op = tRange ->
  KVClient_Range stub ctx (rangeRequest op) w = (out, w') ->
  attempt ctx op stub w =
  Some (EvRange stub ctx (rangeRequest op) out,
        wrap ResponseUnion_ResponseRange out, w').
Proof. intros Hk Hr. unfold attempt. rewrite Hk. cbn. rewrite Hr. reflexivity. Qed.

(** A transport failure followed by a rotation that succeeds: the loop goes
    round, on the rotated dispatcher. *)
Lemma do_Range_loops_back fuel ctx op (s : St) err w1 newConn w2 :
  t op = tRange ->
  mu (self s) = false ->
  KVClient_Range (remote (self s)) ctx (rangeRequest op) (world s)
    = (inr err, w1) ->
  isRPCError err = false ->
  retryConnection (c (self s)) (conn (self s)) err w1 = (inl newConn, w2) ->
  do (S fuel) ctx op s =
  do fuel ctx op
    {| self := rotated (self s) newConn; world := w2;
       goroutines := goroutines s;
       trace := trace s ++
         (getRemoteLog ++
          [(false, EvRange (remote (self s)) ctx (rangeRequest op) (inr err))])
         ++ switchRemoteLog (conn (self s)) err newConn |}.
Proof.
  intros Hk Hmu Hr He Hrc.
  rewrite do_S, (doBody_attempt _ _ _ _ _ _ Hmu (attempt_Range _ _ _ _ _ _ Hk Hr)).
  cbn [wrap].
  rewrite afterFailure_read by (auto; unfold isWrite; rewrite Hk; reflexivity).
  erewrite switchRemote_ok by (cbn; eauto).
  cbn. rewrite <- !app_assoc. reflexivity.
Qed.

(** Whatever the fuel, a Range descriptor on a free mutex neither panics
    nor blocks; when the call returns it is by one of the three exits, and
    the mutex is free again. *)
Lemma do_Range_exits fuel : forall ctx op (s : St),
  t op = tRange ->
  mu (self s) = false ->
  match do fuel ctx op s with
  | Done r s' =>
      mu (self s') = false
      /\ exists pre e, trace s' = trace s ++ pre ++ [e] /\ RangeExit ctx op r e
  | OutOfFuel => True
  | Panicked _ _ | Blocked _ => False
  end.
Proof.
  induction fuel as [|fuel IH]; intros ctx op s Hk Hmu; [exact I|].
  destruct (KVClient_Range (remote (self s)) ctx (rangeRequest op) (world s))
    as [[resp|err] w1] eqn:Hr.
  - rewrite do_S, (doBody_attempt _ _ _ _ _ _ Hmu (attempt_Range _ _ _ _ _ _ Hk Hr)).
    cbn. split; [exact Hmu|].
    exists getRemoteLog. eexists. split; [reflexivity|].
    left. eauto.
  - destruct (isRPCError err) eqn:He.
    + rewrite do_S, (doBody_attempt _ _ _ _ _ _ Hmu (attempt_Range _ _ _ _ _ _ Hk Hr)).
      cbn [wrap]. rewrite (afterFailure_rpc _ _ _ He).
      cbn. split; [exact Hmu|].
      exists getRemoteLog. eexists. split; [reflexivity|].
      right; left. eauto.
    + destruct (retryConnection (c (self s)) (conn (self s)) err w1)
        as [[newConn|nerr] w2] eqn:Hrc.
      * rewrite (do_Range_loops_back _ _ _ _ _ _ _ _ Hk Hmu Hr He Hrc).
        match goal with |- match do fuel ctx op ?s1 with _ => _ end =>
          specialize (IH ctx op s1 Hk eq_refl);
          destruct (do fuel ctx op s1) as [r s'| | |]; auto
        end.
        destruct IH as [Hmu' (pre & e & Htr & Hex)]. split; [exact Hmu'|].
        cbn [trace] in Htr.
        exists (((getRemoteLog ++
                  [(false, EvRange (remote (self s)) ctx (rangeRequest op)
                             (inr err))])
                 ++ switchRemoteLog (conn (self s)) err newConn) ++ pre), e.
        split; [|exact Hex].
        rewrite Htr, <- !app_assoc. reflexivity.
      * rewrite do_S, (doBody_attempt _ _ _ _ _ _ Hmu (attempt_Range _ _ _ _ _ _ Hk Hr)).
        cbn [wrap].
        rewrite afterFailure_read by (auto; unfold isWrite; rewrite Hk; reflexivity).
        erewrite switchRemote_fail by (cbn; eauto).
        cbn. split; [exact Hmu|]. rewrite Hmu.
        exists (getRemoteLog ++
                [(false, EvRange (remote (self s)) ctx (rangeRequest op)
                           (inr err)); (false, EvRead fConn)]),
               (false, EvRetryConnection (conn (self s)) err (inr nerr)).
        split.
        -- rewrite <- !app_assoc. reflexivity.
        -- right; right. exists (conn (self s)), err, nerr. auto.
Qed.

(** The loop of [do] for a Range descriptor, one pass unfolded. *)
Lemma do_Range_unfold fuel ctx op (s : St) :
  t op = tRange ->
  mu (self s) = false ->
  do (S fuel) ctx op s =
  let stub := remote (self s) in
  let r := rangeRequest op in
  let (out, w1) := KVClient_Range stub ctx r (world s) in
  let tr1 := getRemoteLog ++ [(false, EvRange stub ctx r out)] in
  match out with
  | inl resp =>
      Done (Some (ResponseUnion_ResponseRange resp), None) (after s w1 tr1)
  | inr err =>
      if isRPCError err then Done (None, Some err) (after s w1 tr1)
      else
        let (rot, w2) := retryConnection (c (self s)) (conn (self s)) err w1 in
        match rot with
        | inr nerr =>
            Done (None, Some nerr)
              (after s w2
                 (tr1 ++ [(false, EvRead fConn);
                          (false, EvRetryConnection (conn (self s)) err rot)]))
        | inl newConn =>
            do fuel ctx op
              {| self := rotated (self s) newConn; world := w2;
                 goroutines := goroutines s;
                 trace := trace s ++
                          tr1 ++ switchRemoteLog (conn (self s)) err newConn |}
        end
  end.
Proof.
  intros Hk Hmu. cbv zeta.
  destruct (KVClient_Range (remote (self s)) ctx (rangeRequest op) (world s))
    as [[resp|err] w1] eqn:Hr.
  - rewrite do_S,
      (doBody_attempt _ _ _ _ _ _ Hmu (attempt_Range _ _ _ _ _ _ Hk Hr)).
    reflexivity.
  - destruct (isRPCError err) eqn:He.
    + rewrite do_S,
        (doBody_attempt _ _ _ _ _ _ Hmu (attempt_Range _ _ _ _ _ _ Hk Hr)).
      cbn [wrap]. rewrite (afterFailure_rpc _ _ _ He). reflexivity.
    + destruct (retryConnection (c (self s)) (conn (self s)) err w1)
        as [[newConn|nerr] w2] eqn:Hrc.
      * rewrite (do_Range_loops_back _ _ _ _ _ _ _ _ Hk Hmu Hr He Hrc).
        rewrite <- app_assoc. reflexivity.
      * rewrite do_S,
          (doBody_attempt _ _ _ _ _ _ Hmu (attempt_Range _ _ _ _ _ _ Hk Hr)).
        cbn [wrap].
        rewrite afterFailure_read
          by (auto; unfold isWrite; rewrite Hk; reflexivity).
        erewrite switchRemote_fail by (cbn; eauto).
        cbn. rewrite Hmu. unfold after. cbn. rewrite <- !app_assoc. reflexivity.
Qed.

Lemma attempt_sends ctx op stub w ev out w' :
  attempt ctx op stub w = Some (ev, out, w') -> sends ctx op stub ev.
Proof.
  unfold attempt. intros Hat.
  destruct (t op) eqn:Hk;
    [ destruct (KVClient_Range _ _ _ _) | destruct (KVClient_Put _ _ _ _)
    | destruct (KVClient_DeleteRange _ _ _ _) | discriminate ];
    inversion Hat; cbn; auto.
Qed.

(** A pass of the loop for a descriptor of kind Range, Put or DeleteRange
    returns, with the mutex free again, after exactly one attempt, made on
    the stub read at the start of the pass. *)
Lemma doBody_total ctx op (s : St) :
  t op <> tTxn -> mu (self s) = false ->
  exists ev out w' x s1 tr,
    attempt ctx op (remote (self s)) (world s) = Some (ev, out, w')
    /\ doBody ctx op s = Done x s1
    /\ mu (self s1) = false
    /\ trace s1 = trace s ++ getRemoteLog ++ (false, ev) :: tr
    /\ rpcAttempts tr = 0.
Proof.
  intros Hk Hmu.
  destruct (attempt_not_Txn ctx op (remote (self s)) (world s) Hk)
    as (ev & out & w' & Hat).
  exists ev, out, w'. rewrite (doBody_attempt _ _ _ _ _ _ Hmu Hat).
  destruct out as [ru|err].
  { do 2 eexists. exists []. repeat split; auto; cbn; rewrite <- ?app_assoc; reflexivity. }
  destruct (isRPCError err) eqn:He.
  { rewrite (afterFailure_rpc _ _ _ He).
    do 2 eexists. exists []. repeat split; auto; cbn; rewrite <- ?app_assoc; reflexivity. }
  destruct (isWrite op) eqn:Hw.
  { rewrite (afterFailure_write _ _ _ He Hw).
    do 2 eexists. exists [(false, EvGo err)]. repeat split; auto;
      cbn; rewrite ?Hmu, <- ?app_assoc; reflexivity. }
  rewrite (afterFailure_read _ _ _ He Hw).
  destruct (retryConnection (c (self s)) (conn (self s)) err w')
    as [[newConn|nerr] w2] eqn:Hrc.
  - erewrite switchRemote_ok by (cbn; eauto).
    do 2 eexists. exists (switchRemoteLog (conn (self s)) err newConn).
    repeat split; auto; cbn; rewrite <- ?app_assoc; reflexivity.
  - erewrite switchRemote_fail by (cbn; eauto).
    do 2 eexists.
    exists [(false, EvRead fConn);
            (false, EvRetryConnection (conn (self s)) err (inr nerr))].
    repeat split; auto; cbn; rewrite ?Hmu, <- ?app_assoc; reflexivity.
Qed.

Lemma do_never_panics fuel : forall ctx op (s : St),
  t op <> tTxn -> mu (self s) = false ->
  match do fuel ctx op s with
  | Panicked _ _ | Blocked _ => False
  | _ => True
  end.
Proof.
  induction fuel as [|fuel IH]; intros ctx op s Hk Hmu; [exact I|].
  destruct (doBody_total ctx op s Hk Hmu)
    as (ev & out & w' & x & s1 & tr & _ & Hb & Hmu1 & _).
  rewrite do_S, Hb. destruct x as [u|r]; [|exact I].
  apply IH; assumption.
Qed.

Lemma applyOpts_kind opts : forall op, t (applyOpts op opts) = t op.
Proof.
  unfold applyOpts. induction opts as [|o opts IH]; intros op; [reflexivity|].
  cbn. rewrite IH. destruct o; reflexivity.
Qed.

Lemma attempt_variant ctx op stub w ev ru w' :
  attempt ctx op stub w = Some (ev, inl ru, w') -> variant ru = t op.
Proof.
  unfold attempt. intros Hat.
  destruct (t op);
    [ destruct (KVClient_Range _ _ _ _) as [[?|?] ?]
    | destruct (KVClient_Put _ _ _ _) as [[?|?] ?]
    | destruct (KVClient_DeleteRange _ _ _ _) as [[?|?] ?] | discriminate ];
    inversion Hat; reflexivity.
Qed.

(** What a pass of the loop hands back: round again (reads only), a reply
    wrapped in the variant of the descriptor's kind with a nil error, or a
    nil union with an error. *)
Lemma doBody_shape ctx op (s : St) x s1 :
  t op <> tTxn -> mu (self s) = false ->
  doBody ctx op s = Done x s1 ->
  mu (self s1) = false
  /\ match x with
     | inl _ => isWrite op = false
     | inr (Some ru, None) => variant ru = t op
     | inr (None, Some _) => True
     | inr _ => False
     end.
Proof.
  intros Hk Hmu.
  destruct (attempt_not_Txn ctx op (remote (self s)) (world s) Hk)
    as (ev & out & w' & Hat).
  rewrite (doBody_attempt _ _ _ _ _ _ Hmu Hat).
  destruct out as [ru|err].
  { intros Hd; inversion Hd; subst. split; [exact Hmu|].
    eapply attempt_variant; eauto. }
  destruct (isRPCError err) eqn:He.
  { rewrite (afterFailure_rpc _ _ _ He).
    intros Hd; inversion Hd; subst. split; [exact Hmu|exact I]. }
  destruct (isWrite op) eqn:Hw.
  { rewrite (afterFailure_write _ _ _ He Hw).
    intros Hd; inversion Hd; subst. split; [exact Hmu|exact I]. }
  rewrite (afterFailure_read _ _ _ He Hw).
  destruct (retryConnection (c (self s)) (conn (self s)) err w')
    as [[newConn|nerr] w2] eqn:Hrc.
  - erewrite switchRemote_ok by (cbn; eauto).
    intros Hd; inversion Hd; subst. split; reflexivity.
  - erewrite switchRemote_fail by (cbn; eauto).
    intros Hd; inversion Hd; subst. split; [exact Hmu|exact I].
Qed.

Lemma do_shape fuel : forall ctx op (s : St) r s',
  t op <> tTxn -> mu (self s) = false ->
  do fuel ctx op s = Done r s' ->
  (exists ru, r = (Some ru, None) /\ variant ru = t op)
  \/ (exists err, r = (None, Some err)).
Proof.
  induction fuel as [|fuel IH]; intros ctx op s r s' Hk Hmu; [discriminate|].
  rewrite do_S.
  destruct (doBody ctx op s) as [x s1| | |] eqn:Hb; try discriminate.
  destruct (doBody_shape _ _ _ _ _ Hk Hmu Hb) as [Hmu1 Hx].
  destruct x as [u|[[ru|] [err|]]]; try contradiction.
  - apply IH; assumption.
  - intros Hd; inversion Hd; subst. left; eauto.
  - intros Hd; inversion Hd; subst. right; eauto.
Qed.

(** A write returns after one pass. *)
Lemma do_write_returns fuel ctx op (s : St) :
  t op <> tTxn -> isWrite op = true -> mu (self s) = false ->
  exists r s', do (S fuel) ctx op s = Done r s'.
Proof.
  intros Hk Hw Hmu.
  destruct (doBody_total ctx op s Hk Hmu)
    as (ev & out & w' & x & s1 & tr & _ & Hb & _).
  destruct (doBody_shape _ _ _ _ _ Hk Hmu Hb) as [_ Hx].
  rewrite do_S, Hb. destruct x as [u|r]; [congruence|eauto].
Qed.

Lemma wrapper_run {A} (get : option ResponseUnion -> option A)
    (m : M doResult) (s : St) :
  bind m (fun res =>
            match snd res with
            | Some err => ret (None, Some err)
            | None => ret (get (fst res), None)
            end) s =
  match m s with
  | Done (_, Some err) s' => Done (None, Some err) s'
  | Done (r, None) s' => Done (get r, None) s'
  | Panicked msg s' => Panicked msg s'
  | Blocked s' => Blocked s'
  | OutOfFuel => OutOfFuel
  end.
Proof.
  unfold bind. destruct (m s) as [[r [err|]] s'| | |]; reflexivity.
Qed.

(** After a write has failed on the transport, the rotation is still to
    come: when the scheduler runs the pending goroutine and the pool hands
    out [newConn], the connection and the stub change. *)
Lemma pending_rotation_runs (s : St) err rest newConn w' :
  mu (self s) = false ->
  goroutines s = err :: rest ->
  retryConnection (c (self s)) (conn (self s)) err (world s) = (inl newConn, w') ->
  runGoroutine s =
  Done tt
    {| self := rotated (self s) newConn; world := w'; goroutines := rest;
       trace := trace s ++ switchRemoteLog (conn (self s)) err newConn |}.
Proof.
  intros Hmu Hg Hrc. unfold runGoroutine. rewrite Hg. unfold bind at 1.
  erewrite switchRemote_ok by (cbn; eauto). reflexivity.
Qed.

(** [switchRemote] entered while the mutex is held: [conn] is read and
    handed to the pool all the same; only a successful rotation then waits
    for the mutex. *)
Lemma switchRemote_held (prevErr : error) (s : St) out w' :
  mu (self s) = true ->
  retryConnection (c (self s)) (conn (self s)) prevErr (world s) = (out, w') ->
  switchRemote prevErr s =
  match out with
  | inl _ =>
      Blocked
        (after s w'
           [(true, EvRead fConn);
            (true, EvRetryConnection (conn (self s)) prevErr out)])
  | inr err =>
      Done (Some err)
        (after s w'
           [(true, EvRead fConn);
            (true, EvRetryConnection (conn (self s)) prevErr out)])
  end.
Proof.
  intros Hmu Hrc.
  unfold switchRemote. prims. rewrite Hrc. prims. rewrite Hmu.
  rewrite <- !app_assoc. destruct out; cbn; rewrite ?Hmu; reflexivity.
Qed.

End Steps.

(** ** Claims *)

(** The concrete runs below are in the scripted world. *)
#[local] Existing Instance scripted.

(** ** Writes are not retried *)

(** C1.  A Put or DeleteRange descriptor whose attempt fails with a
    transport error (an error that [isRPCError] rejects): whatever the fuel,
    [do] returns that error after a single pass.  The log of the call holds
    exactly one RPC attempt and no call of [retryConnection]; its last entry
    is the [go] statement, the goroutine is left pending, and the connection
    and the stub are as they were. *)
Theorem do_write_transport_error {E : Collaborators} fuel ctx op (s : St)
    ev err w' :
  t op = tPut \/ t op = tDeleteRange ->
  mu (self s) = false ->
  attempt ctx op (remote (self s)) (world s) = Some (ev, inr err, w') ->
  isRPCError err = false ->
  let tr := getRemoteLog ++ [(false, ev); (false, EvGo err)] in
  do (S fuel) ctx op s =
    Done (None, Some err)
      {| self := self s; world := w'; goroutines := goroutines s ++ [err];
         trace := trace s ++ tr |}
  /\ rpcAttempts tr = 1
  /\ awaitedRotations tr = 0
  /\ goStatements tr = 1.
Proof.
  intros Hk Hmu Hat He tr.
  assert (Hw : isWrite op = true)
    by (unfold isWrite; destruct Hk as [-> | ->]; reflexivity).
  pose proof (attempt_isRPC _ _ _ _ _ _ _ Hat false) as Hrpc.
  split; [| subst tr; unfold rpcAttempts, awaitedRotations, goStatements, count;
            cbn [getRemoteLog app filter]; rewrite Hrpc;
            unfold isRPC, isAwaitedRotation, isGo in *; cbn in *;
            destruct ev; try discriminate; cbn; auto ].
  rewrite do_S, (doBody_attempt _ _ _ _ _ _ Hmu Hat).
  rewrite (afterFailure_write _ _ _ He Hw). cbn.
  rewrite Hmu. subst tr. rewrite <- !app_assoc. reflexivity.
Qed.

(** A dispatcher on connection 0 sends [Put "foo" "bar"] into a world whose
    next answer is a transport failure. *)
Lemma do_write_transport_error_witness :
  do 1 (Ctx 0) (OpPut "foo" "bar" [])
      (fresh scripted [Fail "transport is closing"])
  = Done (None, Some "transport is closing")
      (Build_St (fst (NewKV (ClientRef 0) []))
         [] ["transport is closing"]
         (getRemoteLog ++
          [(false, EvPut (NewKVClient (Conn 0)) (Ctx 0)
                     (putRequest (OpPut "foo" "bar" []))
                     (inr "transport is closing"));
           (false, EvGo "transport is closing")])).
Proof.
  refine (proj1 (@do_write_transport_error scripted 0 (Ctx 0)
                   (OpPut "foo" "bar" [])
                   (fresh scripted [Fail "transport is closing"])
                   _ "transport is closing" [] _ _ _ _)).
  - left; reflexivity.
  - reflexivity.
  - reflexivity.
  - reflexivity.
Defined.

(** ** RPC-level errors are returned at once *)

(** C2.  An attempt that fails with an RPC-level error ([isRPCError] accepts
    it): [do], for a Range, Put or DeleteRange descriptor, and [Compact]
    return that very error; the log of the call holds exactly one RPC
    attempt, no call of [retryConnection] and no [go] statement, no
    goroutine is started, and the connection and the stub are as they
    were. *)
Theorem rpc_error_returned_at_once {E : Collaborators} fuel ctx op rev
    (s : St) :
  mu (self s) = false ->
  (forall ev err w',
      attempt ctx op (remote (self s)) (world s) = Some (ev, inr err, w') ->
      isRPCError err = true ->
      let tr := getRemoteLog ++ [(false, ev)] in
      do (S fuel) ctx op s = Done (None, Some err) (after s w' tr)
      /\ rpcAttempts tr = 1 /\ awaitedRotations tr = 0 /\ goStatements tr = 0)
  /\
  (forall err w',
      let r := {| CompactionRequest_Revision := rev |} in
      KVClient_Compact (remote (self s)) ctx r (world s) = (inr err, w') ->
      isRPCError err = true ->
      let tr :=
        getRemoteLog ++ [(false, EvCompact (remote (self s)) ctx r (inr err))] in
      Compact ctx rev s = Done (Some err) (after s w' tr)
      /\ rpcAttempts tr = 1 /\ awaitedRotations tr = 0 /\ goStatements tr = 0).
Proof.
  intros Hmu. split.
  - intros ev err w' Hat He tr.
    pose proof (attempt_isRPC _ _ _ _ _ _ _ Hat false) as Hrpc.
    split; [| subst tr; unfold rpcAttempts, awaitedRotations, goStatements, count;
              cbn [getRemoteLog app filter]; rewrite Hrpc;
              unfold isRPC, isAwaitedRotation, isGo in *; cbn in *;
              destruct ev; try discriminate; cbn; auto ].
    rewrite do_S, (doBody_attempt _ _ _ _ _ _ Hmu Hat).
    rewrite (afterFailure_rpc _ _ _ He). reflexivity.
  - intros err w' r Hc He tr. split; [| subst tr; cbn; auto ].
    unfold Compact. unfold bind at 1. rewrite (getRemote_free s Hmu).
    unfold bind at 1. unfold call. cbn. fold r. rewrite Hc. cbn.
    rewrite He. cbn. unfold after, log, set_world. cbn. rewrite Hmu.
    subst tr. rewrite <- app_assoc. reflexivity.
Qed.

(** A Range attempt and a compaction that the store rejects. *)
Lemma rpc_error_returned_at_once_witness :
  do 1 (Ctx 0) (OpGet "a" [WithRange "z"])
      (fresh scripted [Fail "etcdserver: key not found"])
  = Done (None, Some "etcdserver: key not found")
      (after (fresh scripted [Fail "etcdserver: key not found"]) []
         (getRemoteLog ++
          [(false, EvRange (NewKVClient (Conn 0)) (Ctx 0)
                     (rangeRequest (OpGet "a" [WithRange "z"]))
                     (inr "etcdserver: key not found"))]))
  /\ Compact (Ctx 0) 5 (fresh scripted [Fail "etcdserver: already compacted"])
     = Done (Some "etcdserver: already compacted")
         (after (fresh scripted [Fail "etcdserver: already compacted"]) []
            (getRemoteLog ++
             [(false, EvCompact (NewKVClient (Conn 0)) (Ctx 0)
                        {| CompactionRequest_Revision := 5 |}
                        (inr "etcdserver: already compacted"))])).
Proof.
  split.
  - refine (proj1 (proj1 (@rpc_error_returned_at_once scripted 0 (Ctx 0)
                     (OpGet "a" [WithRange "z"]) 5%Z
                     (fresh scripted [Fail "etcdserver: key not found"]) _)
                   _ "etcdserver: key not found" [] _ _));
      reflexivity.
  - refine (proj1 (proj2 (@rpc_error_returned_at_once scripted 0 (Ctx 0)
                     (OpGet "a" [WithRange "z"]) 5%Z
                     (fresh scripted [Fail "etcdserver: already compacted"]) _)
                   "etcdserver: already compacted" [] _ _));
      reflexivity.
Defined.

(** ** The read loop *)

(** In the scripted world [flaky n] a Range descriptor is attempted [n + 1]
    times: fuel up to [n] is not enough, fuel [n + 1] returns the reply of
    the attempt made on the [n]-th replacement connection. *)
Lemma do_Range_flaky ctx op : t op = tRange ->
  forall n (s : St),
  mu (self s) = false -> consistent (self s) -> world s = flaky n ->
  (forall fuel, fuel <= n -> do fuel ctx op s = OutOfFuel)
  /\ exists s',
      do (S n) ctx op s =
        Done (Some (ResponseUnion_ResponseRange (connId (conn (self s)) + n)), None) s'
      /\ rpcAttempts (trace s') = rpcAttempts (trace s) + S n
      /\ awaitedRotations (trace s') = awaitedRotations (trace s) + n.
Proof.
  intros Hk. induction n as [|n IH]; intros s Hmu Hc Hw.
  - split.
    + intros fuel Hf. assert (fuel = 0) as -> by lia. reflexivity.
    + assert (Hr : KVClient_Range (remote (self s)) ctx (rangeRequest op) (world s)
                   = (inl (connId (conn (self s))), [])).
      { rewrite Hw, Hc. reflexivity. }
      eexists. split.
      * rewrite do_S,
          (doBody_attempt _ _ _ _ _ _ Hmu (attempt_Range _ _ _ _ _ _ Hk Hr)).
        cbn [wrap]. rewrite Nat.add_0_r. reflexivity.
      * unfold rpcAttempts, awaitedRotations. cbn [trace after].
        rewrite !count_app. cbn. lia.
  - assert (Hr : KVClient_Range (remote (self s)) ctx (rangeRequest op) (world s)
                 = (inr "transport is closing", Reply :: flaky n)).
    { rewrite Hw. reflexivity. }
    assert (Hrc : retryConnection (c (self s)) (conn (self s))
                    "transport is closing" (Reply :: flaky n)
                  = (inl (nextConn (conn (self s))), flaky n)) by reflexivity.
    pose proof (fun fuel =>
      do_Range_loops_back fuel ctx op s _ _ _ _ Hk Hmu Hr eq_refl Hrc) as Hloop.
    match type of Hloop with forall fuel, _ = do fuel ctx op ?s1 =>
      destruct (IH s1 eq_refl eq_refl eq_refl) as [Hlow (s' & Hrun & Hrpc & Hrot)]
    end.
    split.
    + intros [|fuel] Hf; [reflexivity|]. rewrite Hloop. apply Hlow. lia.
    + exists s'. rewrite Hloop, Hrun, Hrpc, Hrot.
      unfold rpcAttempts, awaitedRotations. cbn [trace self conn rotated].
      rewrite !count_app. cbn.
      destruct (conn (self s)) as [k]. cbn. repeat split; try lia.
      do 4 f_equal. lia.
Qed.

(** In the unreachable world the loop never ends. *)
Lemma do_Range_unreachable ctx op : t op = tRange ->
  forall fuel (s : @St unreachable),
  mu (self s) = false -> do fuel ctx op s = OutOfFuel.
Proof.
  intros Hk. induction fuel as [|fuel IH]; intros s Hmu; [reflexivity|].
  erewrite (@do_Range_loops_back unreachable fuel ctx op s
              "connection refused" (world s) (nextConn (conn (self s))) (world s)
              Hk Hmu eq_refl eq_refl eq_refl).
  apply IH. reflexivity.
Qed.

(** C3.  The loop of [do] for a Range descriptor.  (1) Whatever the fuel,
    the call neither panics nor blocks, and when it returns it is by one of
    three exits: the attempt succeeded and its reply is returned wrapped, the
    attempt failed with an RPC-level error and that error is returned, or
    the rotation failed and its error is returned.  (2) One pass of the
    loop, in terms of the collaborators: each of the three exits returns at
    once, and a transport failure followed by a rotation that succeeds sends
    the loop round again on the rotated dispatcher, whose stub is the client
    of the new connection.  (3) The number of attempts has no bound: for
    every [n] there is a run that returns after exactly [n + 1] attempts and
    [n] rotations, and not before.  (4) There is a run that never
    returns. *)
Theorem do_Range_retry_loop :
  (forall (E : Collaborators) fuel ctx op (s : St),
      t op = tRange -> mu (self s) = false ->
      match do fuel ctx op s with
      | Done r s' =>
          mu (self s') = false
          /\ exists pre e,
               trace s' = trace s ++ pre ++ [e] /\ RangeExit ctx op r e
      | OutOfFuel => True
      | Panicked _ _ | Blocked _ => False
      end)
  /\ (forall (E : Collaborators) fuel ctx op (s : St),
      t op = tRange -> mu (self s) = false ->
      do (S fuel) ctx op s =
      let stub := remote (self s) in
      let r := rangeRequest op in
      let (out, w1) := KVClient_Range stub ctx r (world s) in
      let tr1 := getRemoteLog ++ [(false, EvRange stub ctx r out)] in
      match out with
      | inl resp =>
          Done (Some (ResponseUnion_ResponseRange resp), None) (after s w1 tr1)
      | inr err =>
          if isRPCError err then Done (None, Some err) (after s w1 tr1)
          else
            let (rot, w2) :=
              retryConnection (c (self s)) (conn (self s)) err w1 in
            match rot with
            | inr nerr =>
                Done (None, Some nerr)
                  (after s w2
                     (tr1 ++
                      [(false, EvRead fConn);
                       (false, EvRetryConnection (conn (self s)) err rot)]))
            | inl newConn =>
                do fuel ctx op
                  {| self := rotated (self s) newConn; world := w2;
                     goroutines := goroutines s;
                     trace := trace s ++
                              tr1 ++
                              switchRemoteLog (conn (self s)) err newConn |}
            end
      end)
  /\ (forall n,
      let s := fresh scripted (flaky n) in
      let op := OpGet "a" [WithRange "z"] in
      (forall fuel, fuel <= n -> @do scripted fuel (Ctx 0) op s = OutOfFuel)
      /\ exists s',
           @do scripted (S n) (Ctx 0) op s
             = Done (Some (@ResponseUnion_ResponseRange scripted n), None) s'
           /\ rpcAttempts (trace s') = S n
           /\ awaitedRotations (trace s') = n)
  /\ (forall fuel,
      @do unreachable fuel (Ctx 0) (OpGet "a" [WithRange "z"])
          (fresh unreachable tt) = OutOfFuel).
Proof.
  split; [|split; [|split]].
  - intros E fuel ctx op s Hk Hmu. apply do_Range_exits; assumption.
  - intros E fuel ctx op s. apply do_Range_unfold.
  - intros n s op.
    destruct (do_Range_flaky (Ctx 0) op eq_refl n s eq_refl eq_refl eq_refl)
      as [Hlow (s' & Hrun & Hrpc & Hrot)].
    split; [exact Hlow|]. exists s'. repeat split; assumption.
  - intros fuel. apply do_Range_unreachable; reflexivity.
Qed.

(** [Get "a" WithRange "z"] in a world that fails once: the second attempt
    is answered. *)
Lemma do_Range_retry_loop_witness :
  match do 2 (Ctx 0) (OpGet "a" [WithRange "z"]) (fresh scripted (flaky 1)) with
  | Done r s' =>
      mu (self s') = false
      /\ exists pre e,
           trace s' = trace (fresh scripted (flaky 1)) ++ pre ++ [e]
           /\ RangeExit (Ctx 0) (OpGet "a" [WithRange "z"]) r e
  | OutOfFuel => True
  | Panicked _ _ | Blocked _ => False
  end.
Proof.
  exact (proj1 do_Range_retry_loop scripted 2 (Ctx 0)
           (OpGet "a" [WithRange "z"]) (fresh scripted (flaky 1))
           eq_refl eq_refl).
Defined.

(** ** The mutex *)

(** [midSwap] is where the first rotation of a fresh dispatcher stands
    after [kv.conn = newConn]. *)
Lemma midSwap_reached (w : @World scripted) :
  switchRemote_upto_conn "transport is closing" (fresh scripted (Reply :: w))
  = Done tt (midSwap w).
Proof. reflexivity. Qed.

(** C4, at the point where the code departs from it.  [getRemote] keeps
    to the mutex: its log passes [guarded].  [switchRemote] does not: the
    first thing it does is read [conn], before the mutex is taken.  Entered
    on a free mutex it returns with a log that does not pass [guarded].
    Entered while the mutex is held, it has read [conn] and handed it to the
    pool before it waits for the mutex (and when the pool fails it returns
    without ever waiting). *)
Theorem switchRemote_reads_conn_unguarded {E : Collaborators} prevErr
    (s : St) out w' :
  retryConnection (c (self s)) (conn (self s)) prevErr (world s) = (out, w') ->
  guarded getRemoteLog = true
  /\ (mu (self s) = false ->
      exists r s' tr,
        switchRemote prevErr s = Done r s'
        /\ trace s' = trace s ++ (false, EvRead fConn) :: tr
        /\ guarded ((false, EvRead fConn) :: tr) = false)
  /\ (mu (self s) = true ->
      let s2 :=
        after s w'
          [(true, EvRead fConn);
           (true, EvRetryConnection (conn (self s)) prevErr out)] in
      switchRemote prevErr s =
      match out with
      | inl _ => Blocked s2
      | inr err => Done (Some err) s2
      end).
Proof.
  intros Hrc. split; [reflexivity|]. split.
  - intros Hmu. destruct out as [newConn|err].
    + rewrite (switchRemote_ok _ _ _ _ Hmu Hrc).
      do 3 eexists. split; [reflexivity|]. split; reflexivity.
    + rewrite (switchRemote_fail _ _ _ _ Hrc), Hmu.
      do 3 eexists. split; [reflexivity|]. split; reflexivity.
  - intros Hmu s2. apply switchRemote_held; assumption.
Qed.

(** A rotation on a dispatcher just built; and a rotation entered while
    another goroutine is between the two assignments: the pool is asked to
    replace connection 1 while the stub is still that of connection 0. *)
Lemma switchRemote_reads_conn_unguarded_witness :
  (exists r s' tr,
      switchRemote "transport is closing" (fresh scripted [Reply]) = Done r s'
      /\ trace s' = (false, EvRead fConn) :: tr
      /\ guarded ((false, EvRead fConn) :: tr) = false)
  /\ switchRemote "connection reset" (midSwap [Reply])
     = Blocked
         (after (midSwap [Reply]) []
            [(true, EvRead fConn);
             (true, EvRetryConnection (Conn 1) "connection reset"
                      (inl (Conn 2)))]).
Proof.
  split.
  - exact (proj1 (proj2 (@switchRemote_reads_conn_unguarded scripted
                           "transport is closing" (fresh scripted [Reply])
                           (inl (Conn 1)) [] eq_refl)) eq_refl).
  - exact (proj2 (proj2 (@switchRemote_reads_conn_unguarded scripted
                           "connection reset" (midSwap [Reply])
                           (inl (Conn 2)) [] eq_refl)) eq_refl).
Defined.

(** ** Rotation, compaction, construction *)

(** C7.  [switchRemote] on a free mutex.  When the pool fails, its error is
    returned and the dispatcher is as it was: same connection, same stub,
    mutex never taken.  When the pool hands out [newConn], nil is returned,
    the stored connection is [newConn] and the stub is the client built from
    it; both writes are made in one critical section (lock, write [conn],
    read it back, write [remote], unlock), and the mutex is free again. *)
Theorem switchRemote_rotation {E : Collaborators} prevErr (s : St) :
  mu (self s) = false ->
  (forall err w',
      retryConnection (c (self s)) (conn (self s)) prevErr (world s)
        = (inr err, w') ->
      switchRemote prevErr s =
        Done (Some err)
          (after s w'
             [(false, EvRead fConn);
              (false, EvRetryConnection (conn (self s)) prevErr (inr err))]))
  /\ (forall newConn w',
      retryConnection (c (self s)) (conn (self s)) prevErr (world s)
        = (inl newConn, w') ->
      exists s',
        switchRemote prevErr s = Done None s'
        /\ conn (self s') = newConn
        /\ remote (self s') = NewKVClient newConn
        /\ mu (self s') = false
        /\ c (self s') = c (self s)
        /\ world s' = w'
        /\ goroutines s' = goroutines s
        /\ trace s' =
             trace s ++
             [(false, EvRead fConn);
              (false, EvRetryConnection (conn (self s)) prevErr (inl newConn));
              (false, EvLock); (true, EvWrite fConn); (true, EvRead fConn);
              (true, EvWrite fRemote); (true, EvUnlock)]).
Proof.
  intros Hmu. split.
  - intros err w' Hrc. rewrite (switchRemote_fail _ _ _ _ Hrc), Hmu. reflexivity.
  - intros newConn w' Hrc. rewrite (switchRemote_ok _ _ _ _ Hmu Hrc).
    eexists. split; [reflexivity|]. cbn. repeat split; reflexivity.
Qed.

Lemma switchRemote_rotation_witness :
  exists s',
    switchRemote "transport is closing" (fresh scripted [Reply]) = Done None s'
    /\ conn (self s') = Conn 1
    /\ remote (self s') = NewKVClient (Conn 1)
    /\ mu (self s') = false
    /\ c (self s') = ClientRef 0
    /\ world s' = []
    /\ goroutines s' = []
    /\ trace s' =
         [(false, EvRead fConn);
          (false, EvRetryConnection (Conn 0) "transport is closing" (inl (Conn 1)));
          (false, EvLock); (true, EvWrite fConn); (true, EvRead fConn);
          (true, EvWrite fRemote); (true, EvUnlock)].
Proof.
  exact (proj2 (@switchRemote_rotation scripted "transport is closing"
                  (fresh scripted [Reply]) eq_refl) (Conn 1) [] eq_refl).
Defined.

(** C8.  [Compact] sends a compaction request whose [Revision] is [rev], on
    the stub read under the mutex.  On a reply it returns nil.  On an
    RPC-level error it returns the error and starts nothing.  On a transport
    failure it returns the error after a [go kv.switchRemote(err)] whose
    goroutine is left pending: no call of [retryConnection] is made before
    the return. *)
Theorem Compact_policy {E : Collaborators} ctx rev (s : St) :
  mu (self s) = false ->
  let r := {| CompactionRequest_Revision := rev |} in
  let stub := remote (self s) in
  (forall resp w',
      KVClient_Compact stub ctx r (world s) = (inl resp, w') ->
      Compact ctx rev s =
        Done None
          (after s w' (getRemoteLog ++ [(false, EvCompact stub ctx r (inl resp))])))
  /\ (forall err w',
      KVClient_Compact stub ctx r (world s) = (inr err, w') ->
      isRPCError err = true ->
      Compact ctx rev s =
        Done (Some err)
          (after s w' (getRemoteLog ++ [(false, EvCompact stub ctx r (inr err))])))
  /\ (forall err w',
      KVClient_Compact stub ctx r (world s) = (inr err, w') ->
      isRPCError err = false ->
      Compact ctx rev s =
        Done (Some err)
          {| self := self s; world := w'; goroutines := goroutines s ++ [err];
             trace := trace s ++ getRemoteLog ++
                      [(false, EvCompact stub ctx r (inr err));
                       (false, EvGo err)] |}).
Proof.
  intros Hmu r stub.
  assert (Hstart : forall out w',
            KVClient_Compact stub ctx r (world s) = (out, w') ->
            Compact ctx rev s =
            match out with
            | inl _ => Done None (after s w' (getRemoteLog ++ [(false, EvCompact stub ctx r out)]))
            | inr err =>
                (if isRPCError err then ret (Some err)
                 else bind (go_switchRemote err) (fun _ => ret (Some err)))
                  (after s w' (getRemoteLog ++ [(false, EvCompact stub ctx r out)]))
            end).
  { intros out w' Hc. unfold Compact. unfold bind at 1.
    rewrite (getRemote_free s Hmu). unfold bind at 1. unfold call. cbn.
    fold r stub. rewrite Hc. unfold after, log, set_world. cbn.
    rewrite Hmu, <- app_assoc. destruct out; reflexivity. }
  repeat split.
  - intros resp w' Hc. rewrite (Hstart _ _ Hc). reflexivity.
  - intros err w' Hc He. rewrite (Hstart _ _ Hc), He. reflexivity.
  - intros err w' Hc He. rewrite (Hstart _ _ Hc), He.
    unfold bind, go_switchRemote, ret, spawn, log, after. cbn.
    rewrite Hmu, <- !app_assoc. reflexivity.
Qed.

(** [Compact(ctx, 5)] answered by "already compacted". *)
Lemma Compact_policy_witness :
  Compact (Ctx 0) 5 (fresh scripted [Fail "etcdserver: already compacted"])
  = Done (Some "etcdserver: already compacted")
      (after (fresh scripted [Fail "etcdserver: already compacted"]) []
         (getRemoteLog ++
          [(false, EvCompact (NewKVClient (Conn 0)) (Ctx 0)
                     {| CompactionRequest_Revision := 5 |}
                     (inr "etcdserver: already compacted"))])).
Proof.
  exact (proj1 (proj2 (@Compact_policy scripted (Ctx 0) 5%Z
                  (fresh scripted [Fail "etcdserver: already compacted"]) eq_refl))
           "etcdserver: already compacted" [] eq_refl eq_refl).
Defined.

(** C9, at the point where the code departs from it.  [NewKV] reads the
    client's connection twice: the stub is the client of what the first
    read found, the [conn] field is what the second read found, the mutex is
    free and the world is the one the second read left.  So the stub is the
    client of the stored connection exactly when the two reads found the
    same connection; it is when the first read left the world as it was.
    It is not when the client's connection is replaced between the two
    reads: the dispatcher then starts with the stub of connection 0 and
    connection 1 in its [conn] field. *)
Theorem NewKV_reads_twice :
  (forall (E : Collaborators) (cl : Client) (w : World),
      let first := ActiveConnection cl w in
      let second := ActiveConnection cl (snd first) in
      NewKV cl w =
        ({| c := cl; mu := false; conn := fst second;
            remote := NewKVClient (fst first) |}, snd second)
      /\ (consistent (fst (NewKV cl w)) <-> fst first = fst second))
  /\ (forall (E : Collaborators) (cl : Client) (w : World),
      snd (ActiveConnection cl w) = w -> consistent (fst (NewKV cl w)))
  /\ @NewKV handover (ClientRef 0) [Conn 0; Conn 1]
     = ({| c := ClientRef 0; mu := false; conn := Conn 1;
           remote := NewKVClient (Conn 0) |}, [])
  /\ ~ consistent (fst (@NewKV handover (ClientRef 0) [Conn 0; Conn 1])).
Proof.
  assert (Hshape : forall (E : Collaborators) (cl : Client) (w : World),
             NewKV cl w =
             ({| c := cl; mu := false;
                 conn := fst (ActiveConnection cl
                                (snd (ActiveConnection cl w)));
                 remote := NewKVClient (fst (ActiveConnection cl w)) |},
              snd (ActiveConnection cl (snd (ActiveConnection cl w))))).
  { intros E cl w. unfold NewKV.
    destruct (ActiveConnection cl w) as [c1 w1]. cbn.
    destruct (ActiveConnection cl w1) as [c2 w2]. reflexivity. }
  split; [|split; [|split]].
  - intros E cl w first second. split; [apply Hshape|].
    rewrite Hshape. unfold consistent. cbn. subst first second.
    split; [intros Heq; inversion Heq; reflexivity|intros ->; reflexivity].
  - intros E cl w Hw. rewrite Hshape. unfold consistent. cbn.
    rewrite Hw. reflexivity.
  - reflexivity.
  - unfold consistent. cbn. discriminate.
Qed.

(** In the scripted world a read leaves the client as it was. *)
Lemma NewKV_reads_twice_witness :
  consistent (fst (@NewKV scripted (ClientRef 0) [Reply])).
Proof.
  exact (proj1 (proj2 NewKV_reads_twice) scripted (ClientRef 0) [Reply]
           eq_refl).
Defined.

(** ** The wrappers *)

(** C10.  [Put], [Get] and [Delete] on a free mutex.  Whenever a wrapper
    returns, exactly one of its two results is non-nil: either the typed
    reply with a nil error, [do] having returned that reply in the variant
    of the wrapper's kind, or a nil reply with the error [do] returned.  A
    wrapper returns whenever [do] does; [Put] and [Delete] return for any
    fuel of at least one pass. *)
Theorem wrappers_results {E : Collaborators} ctx key0 val0 opts (s : St) :
  mu (self s) = false ->
  (forall fuel p s',
      Put fuel ctx key0 val0 opts s = Done p s' ->
      (exists resp, p = (Some resp, None)
         /\ do fuel ctx (OpPut key0 val0 opts) s
            = Done (Some (ResponseUnion_ResponsePut resp), None) s')
      \/ (exists err, p = (None, Some err)
         /\ do fuel ctx (OpPut key0 val0 opts) s = Done (None, Some err) s'))
  /\ (forall fuel p s',
      Get fuel ctx key0 opts s = Done p s' ->
      (exists resp, p = (Some resp, None)
         /\ do fuel ctx (OpGet key0 opts) s
            = Done (Some (ResponseUnion_ResponseRange resp), None) s')
      \/ (exists err, p = (None, Some err)
         /\ do fuel ctx (OpGet key0 opts) s = Done (None, Some err) s'))
  /\ (forall fuel p s',
      Delete fuel ctx key0 opts s = Done p s' ->
      (exists resp, p = (Some resp, None)
         /\ do fuel ctx (OpDelete key0 opts) s
            = Done (Some (ResponseUnion_ResponseDeleteRange resp), None) s')
      \/ (exists err, p = (None, Some err)
         /\ do fuel ctx (OpDelete key0 opts) s = Done (None, Some err) s'))
  /\ (forall fuel, exists p s', Put (S fuel) ctx key0 val0 opts s = Done p s')
  /\ (forall fuel, exists p s', Delete (S fuel) ctx key0 opts s = Done p s')
  /\ (forall fuel r s',
      do fuel ctx (OpGet key0 opts) s = Done r s' ->
      exists p, Get fuel ctx key0 opts s = Done p s').
Proof.
  intros Hmu.
  assert (HkP : t (OpPut key0 val0 opts) = tPut) by apply applyOpts_kind.
  assert (HkG : t (OpGet key0 opts) = tRange) by apply applyOpts_kind.
  assert (HkD : t (OpDelete key0 opts) = tDeleteRange) by apply applyOpts_kind.
  assert (Hunwrap : forall A (get : option ResponseUnion -> option A) fuel op k
            (mk : A -> ResponseUnion) p s',
            t op = k -> k <> tTxn ->
            (forall ru, variant ru = k -> exists a, ru = mk a) ->
            (forall a, get (Some (mk a)) = Some a) ->
            match do fuel ctx op s with
            | Done (_, Some err) s1 => Done (None, Some err) s1
            | Done (r, None) s1 => Done (get r, None) s1
            | Panicked msg s1 => Panicked msg s1
            | Blocked s1 => Blocked s1
            | OutOfFuel => OutOfFuel
            end = Done p s' ->
            (exists a, p = (Some a, None)
               /\ do fuel ctx op s = Done (Some (mk a), None) s')
            \/ (exists err, p = (None, Some err)
               /\ do fuel ctx op s = Done (None, Some err) s')).
  { intros A get fuel op k mk p s' Hk Hnt Hvar Hget.
    destruct (do fuel ctx op s) as [r s1| | |] eqn:Hd; try discriminate.
    assert (Hop : t op <> tTxn) by congruence.
    destruct (do_shape _ _ _ _ _ _ Hop Hmu Hd) as [(ru & -> & Hv)|(err & ->)].
    - rewrite Hk in Hv. destruct (Hvar ru Hv) as [a ->]. rewrite Hget.
      intros Hp; inversion Hp; subst. left; eauto.
    - intros Hp; inversion Hp; subst. right; eauto. }
  repeat split.
  - intros fuel p s'. unfold Put. rewrite wrapper_run.
    apply Hunwrap with (k := tPut); auto; try discriminate.
    intros [x|x|x]; try discriminate; eauto.
  - intros fuel p s'. unfold Get. rewrite wrapper_run.
    apply Hunwrap with (k := tRange); auto; try discriminate.
    intros [x|x|x]; try discriminate; eauto.
  - intros fuel p s'. unfold Delete. rewrite wrapper_run.
    apply Hunwrap with (k := tDeleteRange); auto; try discriminate.
    intros [x|x|x]; try discriminate; eauto.
  - intros fuel. unfold Put. rewrite wrapper_run.
    destruct (do_write_returns fuel ctx (OpPut key0 val0 opts) s)
      as (r & s' & ->); auto; try congruence.
    { unfold isWrite. rewrite HkP. reflexivity. }
    destruct r as [r [err|]]; eauto.
  - intros fuel. unfold Delete. rewrite wrapper_run.
    destruct (do_write_returns fuel ctx (OpDelete key0 opts) s)
      as (r & s' & ->); auto; try congruence.
    { unfold isWrite. rewrite HkD. reflexivity. }
    destruct r as [r [err|]]; eauto.
  - intros fuel r s' Hd. unfold Get. rewrite wrapper_run, Hd.
    destruct r as [r [err|]]; eauto.
Qed.

(** [Put "foo" "bar"] answered by the store. *)
Lemma wrappers_results_witness :
  (exists resp, (Some 0, @None error) = (Some resp, None)
     /\ do 1 (Ctx 0) (OpPut "foo" "bar" []) (fresh scripted [Reply])
        = Done (Some (ResponseUnion_ResponsePut resp), None)
            (after (fresh scripted [Reply]) []
               (getRemoteLog ++
                [(false, EvPut (NewKVClient (Conn 0)) (Ctx 0)
                           (putRequest (OpPut "foo" "bar" [])) (inl 0))])))
  \/ (exists err, (Some 0, @None error) = (None, Some err)
     /\ do 1 (Ctx 0) (OpPut "foo" "bar" []) (fresh scripted [Reply])
        = Done (None, Some err)
            (after (fresh scripted [Reply]) []
               (getRemoteLog ++
                [(false, EvPut (NewKVClient (Conn 0)) (Ctx 0)
                           (putRequest (OpPut "foo" "bar" [])) (inl 0))]))).
Proof.
  exact (proj1 (@wrappers_results scripted (Ctx 0) "foo" "bar" []
                  (fresh scripted [Reply]) eq_refl)
           1 (Some 0, None) _ eq_refl).
Defined.

(** ** Further properties of the dispatcher *)

Section Runs.
Context `{Collaborators}.

Lemma attempt_None ctx op stub w :
  attempt ctx op stub w = None -> t op = tTxn.
Proof.
  intros Hat. destruct (t op) eqn:Hk; trivial; exfalso;
    (destruct (attempt_not_Txn ctx op stub w) as (ev & out & w' & He);
     [rewrite Hk; discriminate | rewrite He in Hat; discriminate]).
Qed.

(** A call of [do] that returns is one of the runs of [DoRun]. *)
Lemma do_DoRun ctx op fuel : forall (s : St) r s',
  mu (self s) = false ->
  do fuel ctx op s = Done r s' ->
  DoRun ctx op s r s'.
Proof.
  induction fuel as [|fuel IH]; intros s r s' Hmu Hd; [discriminate|].
  rewrite do_S in Hd.
  destruct (attempt ctx op (remote (self s)) (world s))
    as [[[ev out] w']|] eqn:Hat.
  2:{ rewrite (doBody_Txn _ _ _ (attempt_None _ _ _ _ Hat)) in Hd.
      discriminate. }
  rewrite (doBody_attempt _ _ _ _ _ _ Hmu Hat) in Hd.
  destruct out as [ru|err].
  { inversion Hd; subst. eapply run_reply; eauto. }
  destruct (isRPCError err) eqn:He.
  { rewrite (afterFailure_rpc _ _ _ He) in Hd. inversion Hd; subst.
    eapply run_rpc_error; eauto. }
  destruct (isWrite op) eqn:Hw.
  { rewrite (afterFailure_write _ _ _ He Hw) in Hd. inversion Hd; subst.
    cbn. rewrite Hmu, <- !app_assoc. cbn.
    eapply run_write_error; eauto. }
  rewrite (afterFailure_read _ _ _ He Hw) in Hd.
  destruct (retryConnection (c (self s)) (conn (self s)) err w')
    as [[newConn|nerr] w2] eqn:Hrc.
  - erewrite switchRemote_ok in Hd by (cbn; eauto).
    cbn in Hd. eapply run_retry; eauto.
    apply IH; [reflexivity|].
    rewrite <- Hd. do 2 f_equal. cbn. rewrite <- !app_assoc. reflexivity.
  - erewrite switchRemote_fail in Hd by (cbn; eauto).
    inversion Hd; subst. cbn. rewrite Hmu.
    pose proof (run_rotation_failed ctx op s ev err w' nerr w2 Hat He Hw Hrc)
      as Hrun.
    unfold after in *. cbn in *. rewrite <- !app_assoc in *. exact Hrun.
Qed.

(** [Compact], by the outcome of its attempt. *)
Lemma Compact_cases ctx rev (s : St) out w' :
  mu (self s) = false ->
  KVClient_Compact (remote (self s)) ctx
    {| CompactionRequest_Revision := rev |} (world s) = (out, w') ->
  let ev := EvCompact (remote (self s)) ctx
              {| CompactionRequest_Revision := rev |} out in
  Compact ctx rev s =
  match out with
  | inl _ => Done None (after s w' (getRemoteLog ++ [(false, ev)]))
  | inr err =>
      if isRPCError err
      then Done (Some err) (after s w' (getRemoteLog ++ [(false, ev)]))
      else Done (Some err)
             {| self := self s; world := w';
                goroutines := goroutines s ++ [err];
                trace := trace s ++
                         getRemoteLog ++ [(false, ev); (false, EvGo err)] |}
  end.
Proof.
  intros Hmu Hc ev. unfold Compact. unfold bind at 1.
  rewrite (getRemote_free s Hmu). unfold bind at 1. unfold call. cbn.
  rewrite Hc. unfold after, log, set_world. cbn.
  rewrite Hmu, <- app_assoc. destruct out as [resp|err]; [reflexivity|].
  destruct (isRPCError err); [reflexivity|].
  unfold bind, go_switchRemote, ret, spawn, log. cbn.
  rewrite Hmu, <- !app_assoc. reflexivity.
Qed.

Lemma rotated_consistent (k : kv) newConn :
  consistent (rotated k newConn) /\ mu (rotated k newConn) = false
  /\ c (rotated k newConn) = c k.
Proof. repeat split. Qed.

Lemma DoRun_invariant ctx op (s : St) r s' :
  DoRun ctx op s r s' ->
  consistent (self s) -> mu (self s) = false ->
  consistent (self s') /\ mu (self s') = false /\ c (self s') = c (self s).
Proof.
  induction 1; intros Hc Hmu; auto.
  destruct IHDoRun as (Hc' & Hmu' & Hcl); [reflexivity|reflexivity|].
  auto.
Qed.

End Runs.

(** X1.  The pair invariant is kept.  On a dispatcher whose stub is the
    client of its connection and whose mutex is free, [getRemote] returns
    the client of the current connection and changes nothing but the log;
    and whenever [switchRemote], [Compact] or [do] returns, the stub is
    again the client of the stored connection, the mutex is free and the
    [Client] is the same. *)
Theorem pair_invariant_kept {E : Collaborators} fuel ctx op rev prevErr
    (s : St) :
  consistent (self s) -> mu (self s) = false ->
  getRemote s
    = Done (NewKVClient (conn (self s))) (after s (world s) getRemoteLog)
  /\ (forall r s', switchRemote prevErr s = Done r s' ->
        consistent (self s') /\ mu (self s') = false
        /\ c (self s') = c (self s))
  /\ (forall r s', Compact ctx rev s = Done r s' ->
        consistent (self s') /\ mu (self s') = false
        /\ c (self s') = c (self s))
  /\ (forall r s', do fuel ctx op s = Done r s' ->
        consistent (self s') /\ mu (self s') = false
        /\ c (self s') = c (self s)).
Proof.
  intros Hc Hmu. repeat split.
  - rewrite (getRemote_free s Hmu), Hc. reflexivity.
  - destruct (retryConnection (c (self s)) (conn (self s)) prevErr (world s))
      as [[newConn|err] w'] eqn:Hrc.
    + rewrite (switchRemote_ok _ _ _ _ Hmu Hrc) in H.
      inversion H; subst. reflexivity.
    + rewrite (switchRemote_fail _ _ _ _ Hrc) in H.
      inversion H; subst. exact Hc.
  - destruct (retryConnection (c (self s)) (conn (self s)) prevErr (world s))
      as [[newConn|err] w'] eqn:Hrc.
    + rewrite (switchRemote_ok _ _ _ _ Hmu Hrc) in H.
      inversion H; subst. reflexivity.
    + rewrite (switchRemote_fail _ _ _ _ Hrc) in H.
      inversion H; subst. exact Hmu.
  - destruct (retryConnection (c (self s)) (conn (self s)) prevErr (world s))
      as [[newConn|err] w'] eqn:Hrc.
    + rewrite (switchRemote_ok _ _ _ _ Hmu Hrc) in H.
      inversion H; subst. reflexivity.
    + rewrite (switchRemote_fail _ _ _ _ Hrc) in H.
      inversion H; subst. reflexivity.
  - destruct (KVClient_Compact (remote (self s)) ctx
                {| CompactionRequest_Revision := rev |} (world s))
      as [out w'] eqn:Hcp.
    rewrite (Compact_cases _ _ _ _ _ Hmu Hcp) in H.
    destruct out as [?|err]; [|destruct (isRPCError err)];
      inversion H; subst; exact Hc.
  - destruct (KVClient_Compact (remote (self s)) ctx
                {| CompactionRequest_Revision := rev |} (world s))
      as [out w'] eqn:Hcp.
    rewrite (Compact_cases _ _ _ _ _ Hmu Hcp) in H.
    destruct out as [?|err]; [|destruct (isRPCError err)];
      inversion H; subst; exact Hmu.
  - destruct (KVClient_Compact (remote (self s)) ctx
                {| CompactionRequest_Revision := rev |} (world s))
      as [out w'] eqn:Hcp.
    rewrite (Compact_cases _ _ _ _ _ Hmu Hcp) in H.
    destruct out as [?|err]; [|destruct (isRPCError err)];
      inversion H; subst; reflexivity.
  - eapply DoRun_invariant; eauto using do_DoRun.
  - eapply DoRun_invariant; eauto using do_DoRun.
  - eapply DoRun_invariant; eauto using do_DoRun.
Qed.

(** A read that fails over once, on a fresh dispatcher. *)
Lemma pair_invariant_kept_witness :
  exists r s',
    do 2 (Ctx 0) (OpGet "a" [WithRange "z"]) (fresh scripted (flaky 1))
      = Done r s'
    /\ consistent (self s') /\ mu (self s') = false
    /\ c (self s') = ClientRef 0.
Proof.
  do 2 eexists. split; [vm_compute; reflexivity|].
  refine (proj2 (proj2 (proj2 (@pair_invariant_kept scripted 2 (Ctx 0)
            (OpGet "a" [WithRange "z"]) 0%Z "transport is closing"
            (fresh scripted (flaky 1)) eq_refl eq_refl))) _ _ _).
  vm_compute; reflexivity.
Defined.

Section Logs.
Context `{Collaborators}.

Lemma attempt_failsWith ctx op stub w ev err w' :
  attempt ctx op stub w = Some (ev, inr err, w') ->
  forall b, failsWith err (b, ev).
Proof.
  unfold attempt. intros Hat b.
  destruct (t op);
    [ destruct (KVClient_Range _ _ _ _) as [[?|?] ?]
    | destruct (KVClient_Put _ _ _ _) as [[?|?] ?]
    | destruct (KVClient_DeleteRange _ _ _ _) as [[?|?] ?] | discriminate ];
    inversion Hat; reflexivity.
Qed.

Lemma attempt_resends ctx op stub w ev out w' :
  attempt ctx op stub w = Some (ev, out, w') ->
  forall b, resends ctx op (b, ev).
Proof.
  intros Hat b. pose proof (attempt_sends _ _ _ _ _ _ _ Hat) as Hs.
  destruct ev; cbn in Hs; try contradiction; cbn; tauto.
Qed.

Ltac by_event Hat :=
  let Hs := fresh "Hs" in
  pose proof (attempt_sends _ _ _ _ _ _ _ Hat) as Hs;
  match type of Hat with
  | _ = Some (?ev, _, _) => destruct ev; cbn in Hs; try contradiction
  end.

Lemma forallb_app_true {A} (p : A -> bool) l l' :
  forallb p l = true -> forallb p l' = true -> forallb p (l ++ l') = true.
Proof. intros Hl Hl'. rewrite forallb_app, Hl, Hl'. reflexivity. Qed.

(** The log of a run: I/O with the mutex free, writes with the mutex held. *)
Lemma DoRun_discipline ctx op (s : St) r s' :
  DoRun ctx op s r s' ->
  exists tr, trace s' = trace s ++ tr
             /\ ioOutsideLock tr = true /\ writesUnderLock tr = true.
Proof.
  induction 1.
  1-4: by_event H0; eexists; (split; [reflexivity|]); split; reflexivity.
  destruct IHDoRun as (tr & Htr & Hio & Hwr).
  exists (((getRemoteLog ++ [(false, ev)])
           ++ switchRemoteLog (conn (self s)) err newConn) ++ tr).
  split; [rewrite Htr; cbn; rewrite <- !app_assoc; reflexivity|].
  by_event H0; split; apply forallb_app_true; auto.
Qed.

(** The log of a run of a read: one attempt more than connections
    installed, at most one refusal of the pool, no goroutine. *)
Lemma DoRun_read_accounting ctx op (s : St) r s' :
  DoRun ctx op s r s' ->
  isWrite op = false ->
  goroutines s' = goroutines s
  /\ exists tr, trace s' = trace s ++ tr
       /\ rpcAttempts tr = count isInstalled tr + 1
       /\ count isRefused tr <= 1
       /\ goStatements tr = 0.
Proof.
  induction 1; intros Hread; try congruence.
  1-3: split; [reflexivity|]; by_event H0; eexists;
       (split; [reflexivity|]); cbn; repeat split; lia.
  destruct (IHDoRun Hread) as (Hg & tr & Htr & Hn & Hrf & Hgo).
  split; [exact Hg|].
  exists (((getRemoteLog ++ [(false, ev)])
           ++ switchRemoteLog (conn (self s)) err newConn) ++ tr).
  split; [rewrite Htr; cbn; rewrite <- !app_assoc; reflexivity|].
  unfold rpcAttempts, goStatements in *. rewrite !count_app.
  by_event H0; cbn; repeat split; lia.
Qed.

(** The log of a run: every attempt carries the request of the descriptor. *)
Lemma DoRun_resends ctx op (s : St) r s' :
  DoRun ctx op s r s' ->
  exists tr, trace s' = trace s ++ tr
             /\ Forall (resends ctx op) tr /\ 1 <= rpcAttempts tr.
Proof.
  assert (Hlock : Forall (resends ctx op) getRemoteLog)
    by (repeat constructor).
  induction 1.
  1-4: pose proof (attempt_resends _ _ _ _ _ _ _ H0 false) as Hrs;
       pose proof (attempt_isRPC _ _ _ _ _ _ _ H0 false) as Hrpc;
       eexists; (split; [reflexivity|]); split;
       [ apply Forall_app; split; [exact Hlock|]; repeat constructor; exact Hrs
       | unfold rpcAttempts; rewrite count_app; unfold count; cbn;
         rewrite Hrpc; cbn; lia ].
  destruct IHDoRun as (tr & Htr & Hall & Hn).
  pose proof (attempt_resends _ _ _ _ _ _ _ H0 false) as Hrs.
  exists (((getRemoteLog ++ [(false, ev)])
           ++ switchRemoteLog (conn (self s)) err newConn) ++ tr).
  split; [rewrite Htr; cbn; rewrite <- !app_assoc; reflexivity|].
  split.
  - repeat (apply Forall_app; split); auto; repeat constructor; exact Hrs.
  - unfold rpcAttempts in *. rewrite count_app. lia.
Qed.

(** What a run returns: a reply in the variant of the kind, or an error
    that the stub or the pool produced during the run. *)
Lemma DoRun_provenance ctx op (s : St) r s' :
  DoRun ctx op s r s' ->
  exists tr, trace s' = trace s ++ tr
    /\ ((exists ru, r = (Some ru, None) /\ variant ru = t op)
        \/ (exists err, r = (None, Some err) /\ Exists (failsWith err) tr)).
Proof.
  induction 1.
  - eexists; split; [reflexivity|]. left. eexists; split; [reflexivity|].
    eapply attempt_variant; eauto.
  - eexists; split; [reflexivity|]. right. eexists; split; [reflexivity|].
    apply Exists_app; right. constructor.
    eapply attempt_failsWith; eauto.
  - eexists; split; [reflexivity|]. right. eexists; split; [reflexivity|].
    apply Exists_app; right. constructor.
    eapply attempt_failsWith; eauto.
  - eexists; split; [reflexivity|]. right. eexists; split; [reflexivity|].
    apply Exists_app; right. do 2 apply Exists_cons_tl.
    constructor. reflexivity.
  - destruct IHDoRun as (tr & Htr & Hr).
    exists (((getRemoteLog ++ [(false, ev)])
             ++ switchRemoteLog (conn (self s)) err newConn) ++ tr).
    split; [rewrite Htr; cbn; rewrite <- !app_assoc; reflexivity|].
    destruct Hr as [Hr|(e & -> & Hex)]; [left; exact Hr|right].
    eexists; split; [reflexivity|]. apply Exists_app; right. exact Hex.
Qed.

End Logs.

(** X2.  A write is attempted once.  For a Put or DeleteRange descriptor,
    whatever the stub answers, [do] returns after one pass, so more fuel
    changes nothing; the log of the call holds exactly one RPC attempt and
    no call of [retryConnection], and the dispatcher keeps its connection
    and its stub. *)
Theorem do_write_once {E : Collaborators} fuel ctx op (s : St) :
  t op = tPut \/ t op = tDeleteRange ->
  mu (self s) = false ->
  exists r s' tr,
    do (S fuel) ctx op s = Done r s'
    /\ do 1 ctx op s = Done r s'
    /\ trace s' = trace s ++ tr
    /\ rpcAttempts tr = 1
    /\ awaitedRotations tr = 0
    /\ self s' = self s.
Proof.
  intros Hk Hmu.
  assert (Hw : isWrite op = true)
    by (unfold isWrite; destruct Hk as [-> | ->]; reflexivity).
  assert (Hnt : t op <> tTxn) by (destruct Hk as [-> | ->]; discriminate).
  destruct (attempt_not_Txn ctx op (remote (self s)) (world s) Hnt)
    as (ev & out & w' & Hat).
  pose proof (attempt_isRPC _ _ _ _ _ _ _ Hat false) as Hrpc.
  assert (Hcount : forall tail,
             count isRPC tail = 0 -> count isAwaitedRotation tail = 0 ->
             rpcAttempts (getRemoteLog ++ (false, ev) :: tail) = 1
             /\ awaitedRotations (getRemoteLog ++ (false, ev) :: tail) = 0).
  { intros tail H1 H2. pose proof (attempt_sends _ _ _ _ _ _ _ Hat) as Hs.
    unfold rpcAttempts, awaitedRotations, count in *.
    destruct ev; cbn in Hs; try contradiction; cbn; rewrite H1, H2;
      split; reflexivity. }
  rewrite !do_S, (doBody_attempt _ _ _ _ _ _ Hmu Hat).
  destruct out as [ru|err].
  { do 2 eexists. exists (getRemoteLog ++ [(false, ev)]).
    repeat split; try reflexivity; apply (Hcount []); reflexivity. }
  destruct (isRPCError err) eqn:He.
  { rewrite (afterFailure_rpc _ _ _ He).
    do 2 eexists. exists (getRemoteLog ++ [(false, ev)]).
    repeat split; try reflexivity; apply (Hcount []); reflexivity. }
  rewrite (afterFailure_write _ _ _ He Hw).
  do 2 eexists. exists (getRemoteLog ++ [(false, ev); (false, EvGo err)]).
  repeat split; try reflexivity;
    try (apply (Hcount [(false, EvGo err)]); reflexivity).
  cbn. rewrite Hmu, <- !app_assoc. reflexivity.
Qed.

(** [Delete "k"] answered by the store, with ten passes of fuel. *)
Lemma do_write_once_witness :
  exists r s' tr,
    do 10 (Ctx 0) (OpDelete "k" []) (fresh scripted [Reply]) = Done r s'
    /\ do 1 (Ctx 0) (OpDelete "k" []) (fresh scripted [Reply]) = Done r s'
    /\ trace s' = trace (fresh scripted [Reply]) ++ tr
    /\ rpcAttempts tr = 1
    /\ awaitedRotations tr = 0
    /\ self s' = self (fresh scripted [Reply]).
Proof.
  refine (@do_write_once scripted 9 (Ctx 0) (OpDelete "k" [])
            (fresh scripted [Reply]) _ eq_refl).
  right; reflexivity.
Defined.

(** X3.  A compaction is attempted once.  Whatever the stub answers,
    [Compact] returns; the log of the call holds exactly one RPC attempt,
    made with the mutex free, and no call of [retryConnection]; the
    dispatcher keeps its connection and its stub; the result is nil exactly
    when the stub replied. *)
Theorem Compact_once {E : Collaborators} ctx rev (s : St) :
  mu (self s) = false ->
  exists r s' tr out w',
    KVClient_Compact (remote (self s)) ctx
      {| CompactionRequest_Revision := rev |} (world s) = (out, w')
    /\ Compact ctx rev s = Done r s'
    /\ r = match out with inl _ => None | inr err => Some err end
    /\ trace s' = trace s ++ tr
    /\ rpcAttempts tr = 1
    /\ awaitedRotations tr = 0
    /\ ioOutsideLock tr = true
    /\ self s' = self s
    /\ world s' = w'.
Proof.
  intros Hmu.
  destruct (KVClient_Compact (remote (self s)) ctx
              {| CompactionRequest_Revision := rev |} (world s))
    as [out w'] eqn:Hcp.
  rewrite (Compact_cases _ _ _ _ _ Hmu Hcp).
  destruct out as [resp|err]; [|destruct (isRPCError err)].
  - do 2 eexists. eexists (getRemoteLog ++ [_]). exists (inl resp), w'.
    repeat split; reflexivity.
  - do 2 eexists. eexists (getRemoteLog ++ [_]). exists (inr err), w'.
    repeat split; reflexivity.
  - do 2 eexists. eexists (getRemoteLog ++ [_; _]). exists (inr err), w'.
    repeat split; reflexivity.
Qed.

(** [Compact(ctx, 7)] on a transport that is down. *)
Lemma Compact_once_witness :
  exists r s' tr out w',
    scriptedCall 0 [Fail "transport is closing"] = (out, w')
    /\ Compact (Ctx 0) 7 (fresh scripted [Fail "transport is closing"])
       = Done r s'
    /\ r = match out with inl _ => None | inr err => Some err end
    /\ trace s' = tr
    /\ rpcAttempts tr = 1
    /\ awaitedRotations tr = 0
    /\ ioOutsideLock tr = true
    /\ self s' = self (fresh scripted [Fail "transport is closing"])
    /\ world s' = w'.
Proof.
  exact (@Compact_once scripted (Ctx 0) 7%Z
           (fresh scripted [Fail "transport is closing"]) eq_refl).
Defined.

(** X4.  The mutex is never held across I/O.  In the log of a call of [do]
    that returns, whatever the kind and the number of passes, every RPC and
    every call of [retryConnection] is made with the mutex free, and every
    write of [conn] or [remote] with the mutex held. *)
Theorem do_lock_discipline {E : Collaborators} fuel ctx op (s : St) r s' :
  mu (self s) = false ->
  do fuel ctx op s = Done r s' ->
  exists tr, trace s' = trace s ++ tr
             /\ ioOutsideLock tr = true /\ writesUnderLock tr = true.
Proof.
  intros Hmu Hd. eapply DoRun_discipline, do_DoRun; eauto.
Qed.

Lemma do_lock_discipline_witness :
  exists r s' tr,
    do 2 (Ctx 0) (OpGet "a" []) (fresh scripted (flaky 1)) = Done r s'
    /\ trace s' = tr
    /\ ioOutsideLock tr = true /\ writesUnderLock tr = true.
Proof.
  do 2 eexists.
  assert (Hrun : do 2 (Ctx 0) (OpGet "a" []) (fresh scripted (flaky 1))
                 = Done _ _) by (vm_compute; reflexivity).
  destruct (@do_lock_discipline scripted 2 (Ctx 0) (OpGet "a" [])
              (fresh scripted (flaky 1)) _ _ eq_refl Hrun)
    as (tr & Htr & Hio & Hwr).
  exists tr. split; [exact Hrun|]. split; [exact Htr|].
  split; [exact Hio|exact Hwr].
Defined.

(** X5.  The accounting of a read.  In the log of a call of [do] for a
    Range descriptor that returns, the number of RPC attempts is one more
    than the number of connections the pool handed out: every retry follows
    a rotation that succeeded.  The pool refused at most once, no [go]
    statement was run and no goroutine was started. *)
Theorem do_Range_accounting {E : Collaborators} fuel ctx op (s : St) r s' :
  t op = tRange ->
  mu (self s) = false ->
  do fuel ctx op s = Done r s' ->
  goroutines s' = goroutines s
  /\ exists tr, trace s' = trace s ++ tr
       /\ rpcAttempts tr = count isInstalled tr + 1
       /\ count isRefused tr <= 1
       /\ goStatements tr = 0.
Proof.
  intros Hk Hmu Hd. eapply DoRun_read_accounting.
  - eapply do_DoRun; eauto.
  - unfold isWrite. rewrite Hk. reflexivity.
Qed.

(** A transport failure, a rotation, and the pool has no connection left
    after the second failure. *)
Lemma do_Range_accounting_witness :
  exists r s' tr,
    do 2 (Ctx 0) (OpGet "a" [])
       (fresh scripted
          [Fail "transport is closing"; Reply; Fail "transport is closing"])
      = Done r s'
    /\ goroutines s' = []
    /\ trace s' = tr
    /\ rpcAttempts tr = count isInstalled tr + 1
    /\ count isRefused tr <= 1
    /\ goStatements tr = 0.
Proof.
  do 2 eexists.
  assert (Hrun : do 2 (Ctx 0) (OpGet "a" [])
                   (fresh scripted
                      [Fail "transport is closing"; Reply;
                       Fail "transport is closing"])
                 = Done _ _) by (vm_compute; reflexivity).
  destruct (@do_Range_accounting scripted 2 (Ctx 0) (OpGet "a" [])
              (fresh scripted
                 [Fail "transport is closing"; Reply;
                  Fail "transport is closing"])
              _ _ eq_refl eq_refl Hrun)
    as (Hg & tr & Htr & Hn & Hrf & Hgo).
  exists tr. split; [exact Hrun|].
  split; [exact Hg|]. split; [exact Htr|].
  split; [exact Hn|]. split; [exact Hrf|exact Hgo].
Defined.

(** X6.  Every attempt carries the same request.  In the log of a call of
    [do] that returns there is at least one RPC attempt, and every RPC
    attempt, the retries included, is a call of the method of the
    descriptor's kind with the context of the call and the request built
    from the descriptor; no other method of the stub is called. *)
Theorem do_resends_request {E : Collaborators} fuel ctx op (s : St) r s' :
  mu (self s) = false ->
  do fuel ctx op s = Done r s' ->
  exists tr, trace s' = trace s ++ tr
             /\ Forall (resends ctx op) tr /\ 1 <= rpcAttempts tr.
Proof.
  intros Hmu Hd. eapply DoRun_resends, do_DoRun; eauto.
Qed.

Lemma do_resends_request_witness :
  exists r s' tr,
    do 2 (Ctx 0) (OpGet "a" [WithLimit 10]) (fresh scripted (flaky 1))
      = Done r s'
    /\ trace s' = tr
    /\ Forall (resends (Ctx 0) (OpGet "a" [WithLimit 10])) tr
    /\ 1 <= rpcAttempts tr.
Proof.
  do 2 eexists.
  assert (Hrun : do 2 (Ctx 0) (OpGet "a" [WithLimit 10])
                   (fresh scripted (flaky 1))
                 = Done _ _) by (vm_compute; reflexivity).
  destruct (@do_resends_request scripted 2 (Ctx 0) (OpGet "a" [WithLimit 10])
              (fresh scripted (flaky 1)) _ _ eq_refl Hrun)
    as (tr & Htr & Hall & Hn).
  exists tr. split; [exact Hrun|]. split; [exact Htr|].
  split; [exact Hall|exact Hn].
Defined.

(** X7.  What [do] returns.  Whenever [do] returns, exactly one of the two
    results is non-nil: either a union in the variant of the descriptor's
    kind with a nil error, or a nil union with an error; and that error is
    the outcome of an RPC attempt or of a call of [retryConnection] logged
    during the call. *)
Theorem do_result_provenance {E : Collaborators} fuel ctx op (s : St) r s' :
  mu (self s) = false ->
  do fuel ctx op s = Done r s' ->
  exists tr, trace s' = trace s ++ tr
    /\ ((exists ru, r = (Some ru, None) /\ variant ru = t op)
        \/ (exists err, r = (None, Some err) /\ Exists (failsWith err) tr)).
Proof.
  intros Hmu Hd. eapply DoRun_provenance, do_DoRun; eauto.
Qed.

Lemma do_result_provenance_witness :
  exists r s' tr,
    do 2 (Ctx 0) (OpGet "a" [])
       (fresh scripted [Fail "transport is closing";
                        Fail "no available endpoint"])
      = Done r s'
    /\ trace s' = tr
    /\ ((exists ru, r = (Some ru, None) /\ variant ru = tRange)
        \/ (exists err, r = (None, Some err) /\ Exists (failsWith err) tr)).
Proof.
  do 2 eexists.
  assert (Hrun : do 2 (Ctx 0) (OpGet "a" [])
                   (fresh scripted [Fail "transport is closing";
                                    Fail "no available endpoint"])
                 = Done _ _) by (vm_compute; reflexivity).
  destruct (@do_result_provenance scripted 2 (Ctx 0) (OpGet "a" [])
              (fresh scripted [Fail "transport is closing";
                               Fail "no available endpoint"])
              _ _ eq_refl Hrun)
    as (tr & Htr & Hr).
  exists tr. split; [exact Hrun|]. split; [exact Htr|exact Hr].
Defined.

(** X8.  A reply to the first attempt.  For a descriptor of kind Range, Put
    or DeleteRange whose first attempt is answered, [do] returns the reply
    wrapped in the variant of the kind, with a nil error, whatever the fuel;
    the call made one RPC attempt, no rotation and no [go] statement, and
    left the dispatcher as it was. *)
Theorem do_first_attempt_reply {E : Collaborators} fuel ctx op (s : St)
    ev ru w' :
  mu (self s) = false ->
  attempt ctx op (remote (self s)) (world s) = Some (ev, inl ru, w') ->
  let tr := getRemoteLog ++ [(false, ev)] in
  do (S fuel) ctx op s = Done (Some ru, None) (after s w' tr)
  /\ variant ru = t op
  /\ rpcAttempts tr = 1 /\ awaitedRotations tr = 0 /\ goStatements tr = 0.
Proof.
  intros Hmu Hat tr. split.
  - rewrite do_S, (doBody_attempt _ _ _ _ _ _ Hmu Hat). reflexivity.
  - split; [eapply attempt_variant; eauto|].
    pose proof (attempt_sends _ _ _ _ _ _ _ Hat) as Hs. subst tr.
    destruct ev; cbn in Hs; try contradiction; repeat split; reflexivity.
Qed.

Lemma do_first_attempt_reply_witness :
  do 1 (Ctx 0) (OpDelete "k" [WithRange "m"]) (fresh scripted [Reply])
  = Done (Some (ResponseUnion_ResponseDeleteRange 0), None)
      (after (fresh scripted [Reply]) []
         (getRemoteLog ++
          [(false, EvDeleteRange (NewKVClient (Conn 0)) (Ctx 0)
                     (deleteRangeRequest (OpDelete "k" [WithRange "m"]))
                     (inl 0))])).
Proof.
  exact (proj1 (@do_first_attempt_reply scripted 0 (Ctx 0)
                  (OpDelete "k" [WithRange "m"]) (fresh scripted [Reply])
                  _ _ [] eq_refl eq_refl)).
Defined.

(** X9.  A read fails over.  For a Range descriptor whose first attempt
    fails on the transport, when the pool hands out [newConn] and the
    attempt on the client of [newConn] is answered, [do] returns that
    second reply with a nil error: two RPC attempts with the same request,
    the first on the old stub and the second on the new one, and the
    dispatcher is left on [newConn]. *)
Theorem do_Range_failover {E : Collaborators} fuel ctx op (s : St)
    err w1 newConn w2 resp w3 :
  t op = tRange ->
  mu (self s) = false ->
  KVClient_Range (remote (self s)) ctx (rangeRequest op) (world s)
    = (inr err, w1) ->
  isRPCError err = false ->
  retryConnection (c (self s)) (conn (self s)) err w1 = (inl newConn, w2) ->
  KVClient_Range (NewKVClient newConn) ctx (rangeRequest op) w2
    = (inl resp, w3) ->
  let tr :=
    (getRemoteLog ++
     [(false, EvRange (remote (self s)) ctx (rangeRequest op) (inr err))])
    ++ switchRemoteLog (conn (self s)) err newConn
    ++ getRemoteLog ++
    [(false, EvRange (NewKVClient newConn) ctx (rangeRequest op) (inl resp))] in
  do (S (S fuel)) ctx op s =
    Done (Some (ResponseUnion_ResponseRange resp), None)
      {| self := rotated (self s) newConn; world := w3;
         goroutines := goroutines s; trace := trace s ++ tr |}
  /\ rpcAttempts tr = 2.
Proof.
  intros Hk Hmu Hr He Hrc Hr2 tr. split; [|reflexivity].
  rewrite (do_Range_loops_back _ _ _ _ _ _ _ _ Hk Hmu Hr He Hrc).
  rewrite do_S.
  erewrite doBody_attempt;
    [ | reflexivity | apply attempt_Range; [exact Hk | exact Hr2] ].
  cbn. unfold after. cbn. subst tr. rewrite <- !app_assoc. reflexivity.
Qed.

(** [Get "a" WithRange "z"]: a transport failure, a rotation, a reply. *)
Lemma do_Range_failover_witness :
  do 2 (Ctx 0) (OpGet "a" [WithRange "z"]) (fresh scripted (flaky 1))
  = Done (Some (ResponseUnion_ResponseRange 1), None)
      (Build_St (rotated (fst (NewKV (ClientRef 0) (flaky 1))) (Conn 1)) []
         []
         ((getRemoteLog ++
           [(false, EvRange (NewKVClient (Conn 0)) (Ctx 0)
                      (rangeRequest (OpGet "a" [WithRange "z"]))
                      (inr "transport is closing"))])
          ++ switchRemoteLog (Conn 0) "transport is closing" (Conn 1)
          ++ getRemoteLog ++
          [(false, EvRange (NewKVClient (Conn 1)) (Ctx 0)
                     (rangeRequest (OpGet "a" [WithRange "z"])) (inl 1))])).
Proof.
  exact (proj1 (@do_Range_failover scripted 0 (Ctx 0)
                  (OpGet "a" [WithRange "z"]) (fresh scripted (flaky 1))
                  "transport is closing" [Reply; Reply] (Conn 1) [Reply]
                  1 [] eq_refl eq_refl eq_refl eq_refl eq_refl eq_refl)).
Defined.

(** X10.  The rotation of a failed write comes later.  After a Put or
    DeleteRange has failed on the transport and returned, the goroutine it
    started is still to run; when it runs and the pool hands out [newConn]
    for the connection it finds in the dispatcher, the dispatcher is left
    on [newConn] and the next [getRemote] returns the client of
    [newConn]. *)
Theorem write_failure_rotates_later {E : Collaborators} ctx op (s : St)
    ev err w' newConn w2 :
  t op = tPut \/ t op = tDeleteRange ->
  mu (self s) = false ->
  goroutines s = [] ->
  attempt ctx op (remote (self s)) (world s) = Some (ev, inr err, w') ->
  isRPCError err = false ->
  retryConnection (c (self s)) (conn (self s)) err w' = (inl newConn, w2) ->
  bind (do 1 ctx op) (fun _ => bind runGoroutine (fun _ => getRemote)) s
  = Done (NewKVClient newConn)
      {| self := rotated (self s) newConn; world := w2; goroutines := [];
         trace := trace s ++
                  (getRemoteLog ++ [(false, ev); (false, EvGo err)])
                  ++ switchRemoteLog (conn (self s)) err newConn
                  ++ getRemoteLog |}.
Proof.
  intros Hk Hmu Hg Hat He Hrc.
  assert (Hw : isWrite op = true)
    by (unfold isWrite; destruct Hk as [-> | ->]; reflexivity).
  unfold bind at 1.
  rewrite do_S, (doBody_attempt _ _ _ _ _ _ Hmu Hat).
  rewrite (afterFailure_write _ _ _ He Hw). cbn [after self world trace goroutines].
  unfold bind at 1.
  erewrite pending_rotation_runs;
    [ | exact Hmu | cbn; rewrite Hg; reflexivity | cbn; exact Hrc ].
  rewrite getRemote_free by reflexivity.
  cbn. unfold after. cbn. rewrite Hmu, <- !app_assoc. reflexivity.
Qed.

Lemma write_failure_rotates_later_witness :
  bind (do 1 (Ctx 0) (OpPut "foo" "bar" []))
       (fun _ => bind runGoroutine (fun _ => getRemote))
       (fresh scripted [Fail "transport is closing"; Reply])
  = Done (NewKVClient (Conn 1))
      (Build_St (rotated (fst (NewKV (ClientRef 0) [])) (Conn 1)) [] []
         ((getRemoteLog ++
           [(false, EvPut (NewKVClient (Conn 0)) (Ctx 0)
                      (putRequest (OpPut "foo" "bar" []))
                      (inr "transport is closing"));
            (false, EvGo "transport is closing")])
          ++ switchRemoteLog (Conn 0) "transport is closing" (Conn 1)
          ++ getRemoteLog)).
Proof.
  refine (@write_failure_rotates_later scripted (Ctx 0)
            (OpPut "foo" "bar" [])
            (fresh scripted [Fail "transport is closing"; Reply])
            _ "transport is closing" [Reply] (Conn 1) []
            _ eq_refl eq_refl eq_refl eq_refl eq_refl).
  left; reflexivity.
Defined.

(** X11.  Rotations are not coalesced.  Two calls of [switchRemote] in a
    row, the pool handing out [c1] and then [c2]: the second call asks the
    pool to replace [c1], the connection the first one installed, and the
    dispatcher is left on [c2] with the client of [c2]. *)
Theorem switchRemote_twice {E : Collaborators} e1 e2 (s : St) c1 w1 c2 w2 :
  mu (self s) = false ->
  retryConnection (c (self s)) (conn (self s)) e1 (world s) = (inl c1, w1) ->
  retryConnection (c (self s)) c1 e2 w1 = (inl c2, w2) ->
  bind (switchRemote e1) (fun _ => switchRemote e2) s
  = Done None
      {| self := rotated (self s) c2; world := w2;
         goroutines := goroutines s;
         trace := trace s ++
                  switchRemoteLog (conn (self s)) e1 c1
                  ++ switchRemoteLog c1 e2 c2 |}.
Proof.
  intros Hmu H1 H2. unfold bind.
  rewrite (switchRemote_ok _ _ _ _ Hmu H1).
  erewrite switchRemote_ok; [ | reflexivity | cbn; exact H2 ].
  cbn. rewrite <- !app_assoc. reflexivity.
Qed.

Lemma switchRemote_twice_witness :
  bind (switchRemote "transport is closing")
       (fun _ => switchRemote "connection reset")
       (fresh scripted [Reply; Reply])
  = Done None
      (Build_St (rotated (fst (NewKV (ClientRef 0) [])) (Conn 2)) [] []
         (switchRemoteLog (Conn 0) "transport is closing" (Conn 1)
          ++ switchRemoteLog (Conn 1) "connection reset" (Conn 2))).
Proof.
  exact (@switchRemote_twice scripted "transport is closing"
           "connection reset" (fresh scripted [Reply; Reply])
           (Conn 1) [Reply] (Conn 2) [] eq_refl eq_refl eq_refl).
Defined.

(** X12.  Readers of the stub wait for the mutex.  While the mutex is held,
    as it is between the two assignments of a rotation, [getRemote] does not
    read the stub, and [Compact] and [do] send nothing: each blocks on the
    mutex with the log and the dispatcher untouched. *)
Theorem readers_wait_for_mutex {E : Collaborators} fuel ctx op rev (s : St) :
  mu (self s) = true ->
  getRemote s = Blocked s
  /\ Compact ctx rev s = Blocked s
  /\ (t op <> tTxn -> do (S fuel) ctx op s = Blocked s).
Proof.
  intros Hmu.
  assert (Hg : getRemote s = Blocked s)
    by (unfold getRemote, bind, Lock; rewrite Hmu; reflexivity).
  repeat split.
  - exact Hg.
  - unfold Compact. unfold bind at 1. rewrite Hg. reflexivity.
  - intros Hk. rewrite do_S. unfold doBody.
    destruct (t op); try congruence; unfold bind at 1; rewrite Hg; reflexivity.
Qed.

(** A read arrives in the middle of a rotation. *)
Lemma readers_wait_for_mutex_witness :
  do 5 (Ctx 0) (OpGet "a" []) (midSwap [Reply]) = Blocked (midSwap [Reply]).
Proof.
  refine (proj2 (proj2 (@readers_wait_for_mutex scripted 4 (Ctx 0)
                          (OpGet "a" []) 0%Z (midSwap [Reply]) eq_refl)) _).
  discriminate.
Defined.

(** ** Dispatch by kind *)

Section Dispatching.
Context `{Collaborators}.

(** The first pass of [do]: the stub is read under the mutex and the
    attempt made on it; a reply ends the call, a failure goes on to the
    part after the [switch] and from there out or round the loop. *)
Lemma do_first_pass ctx op (s : St) ev out w' :
  mu (self s) = false ->
  attempt ctx op (remote (self s)) (world s) = Some (ev, out, w') ->
  forall fuel,
    do (S fuel) ctx op s =
    match out with
    | inl ru =>
        Done (Some ru, None) (after s w' (getRemoteLog ++ [(false, ev)]))
    | inr err =>
        bind (afterFailure op err)
          (fun x => match x with
                    | inr r => ret r
                    | inl _ => do fuel ctx op
                    end)
          (after s w' (getRemoteLog ++ [(false, ev)]))
    end.
Proof.
  intros Hmu Hat fuel. cbn [do]. unfold bind at 1.
  rewrite (doBody_attempt _ _ _ _ _ _ Hmu Hat).
  destruct out; reflexivity.
Qed.

(** The log of a run starts with the read of the stub and the attempt on
    it. *)
Lemma DoRun_first_attempt ctx op (s : St) r s' :
  DoRun ctx op s r s' ->
  exists ev out w' tr,
    attempt ctx op (remote (self s)) (world s) = Some (ev, out, w')
    /\ trace s' = trace s ++ getRemoteLog ++ (false, ev) :: tr
    /\ Forall (resends ctx op) tr.
Proof.
  intros Hrun. destruct Hrun.
  - exists ev, (inl ru), w', [].
    repeat split; auto; cbn; rewrite <- ?app_assoc; reflexivity.
  - exists ev, (inr err), w', [].
    repeat split; auto; cbn; rewrite <- ?app_assoc; reflexivity.
  - exists ev, (inr err), w', [(false, EvGo err)].
    split; [assumption|]. split; [reflexivity|]. repeat constructor.
  - exists ev, (inr err), w',
      [(false, EvRead fConn);
       (false, EvRetryConnection (conn (self s)) err (inr nerr))].
    split; [assumption|]. split; [|repeat constructor].
    cbn. rewrite <- ?app_assoc. reflexivity.
  - destruct (DoRun_resends _ _ _ _ _ Hrun) as (tr & Htr & Hall & _).
    exists ev, (inr err), w',
      (switchRemoteLog (conn (self s)) err newConn ++ tr).
    split; [assumption|]. split.
    + rewrite Htr. cbn. rewrite <- !app_assoc. reflexivity.
    + apply Forall_app; split; [repeat constructor|exact Hall].
Qed.

Lemma resends_carries ctx op (e : entry) : resends ctx op e -> carries op e.
Proof.
  unfold resends, carries. destruct (snd e); auto.
  - intros (Hk & _ & ->). split; [exact Hk|].
    unfold rangeRequest. destruct (sort op); cbn; repeat split; reflexivity.
  - intros (Hk & _ & ->). cbn. auto.
  - intros (Hk & _ & ->). cbn. auto.
Qed.

End Dispatching.

(** C5, as the code has it.  A descriptor of kind Range, Put or DeleteRange
    is dispatched by [do]: the call neither panics nor blocks, whatever the
    fuel; its first pass reads the stub under the mutex and calls, on that
    stub, the RPC method of the descriptor's kind with the context and the
    request built from the descriptor, then returns the reply or goes on
    with the failure; and whenever the call returns, its log starts with
    that read and that call, and every later RPC in it is again the method
    of the kind with the same request.  A descriptor of kind Txn is not
    dispatched: [do] panics with "Unknown op" before anything is logged. *)
Theorem do_dispatch_by_kind {E : Collaborators} ctx op (s : St) :
  mu (self s) = false ->
  (t op <> tTxn ->
     (forall fuel,
         match do fuel ctx op s with
         | Panicked _ _ | Blocked _ => False
         | _ => True
         end)
     /\ (exists ev out w',
          attempt ctx op (remote (self s)) (world s) = Some (ev, out, w')
          /\ sends ctx op (remote (self s)) ev
          /\ (forall fuel,
                do (S fuel) ctx op s =
                match out with
                | inl ru =>
                    Done (Some ru, None)
                      (after s w' (getRemoteLog ++ [(false, ev)]))
                | inr err =>
                    bind (afterFailure op err)
                      (fun x => match x with
                                | inr r => ret r
                                | inl _ => do fuel ctx op
                                end)
                      (after s w' (getRemoteLog ++ [(false, ev)]))
                end)
          /\ (forall fuel r s',
                do fuel ctx op s = Done r s' ->
                exists tr,
                  trace s' = trace s ++ getRemoteLog ++ (false, ev) :: tr
                  /\ Forall (resends ctx op) tr))
     /\ exists ev x s1 tr,
          doBody ctx op s = Done x s1
          /\ trace s1 = trace s ++ getRemoteLog ++ (false, ev) :: tr
          /\ sends ctx op (remote (self s)) ev)
  /\ (t op = tTxn -> forall fuel, do (S fuel) ctx op s = Panicked "Unknown op" s).
Proof.
  intros Hmu. split.
  - intros Hk. split; [|split].
    + intros fuel. apply do_never_panics; assumption.
    + destruct (attempt_not_Txn ctx op (remote (self s)) (world s) Hk)
        as (ev & out & w' & Hat).
      exists ev, out, w'. split; [exact Hat|].
      split; [eapply attempt_sends; eauto|]. split.
      * apply do_first_pass; assumption.
      * intros fuel r s' Hd.
        destruct (DoRun_first_attempt _ _ _ _ _ (do_DoRun _ _ _ _ _ _ Hmu Hd))
          as (ev' & out' & w'' & tr & Hat' & Htr & Hall).
        rewrite Hat in Hat'. inversion Hat'; subst. exists tr. auto.
    + destruct (doBody_total ctx op s Hk Hmu)
        as (ev & out & w' & x & s1 & tr & Hat & Hb & _ & Htr & _).
      exists ev, x, s1, tr. repeat split; auto.
      eapply attempt_sends; eauto.
  - intros Hk fuel. rewrite do_S, (doBody_Txn _ _ _ Hk). reflexivity.
Qed.

(** A Txn descriptor, as a transaction commit would submit it. *)
Lemma do_Txn_panics :
  ~ (forall (E : Collaborators) fuel ctx op (s : St),
        mu (self s) = false ->
        match do (S fuel) ctx op s with
        | Panicked _ _ => False
        | _ => True
        end).
Proof.
  intros Hall.
  exact (Hall scripted 0 (Ctx 0) (newOp tTxn "" "") (fresh scripted []) eq_refl).
Qed.

(** A Txn descriptor panics; a Put descriptor does not, whatever the fuel,
    and [Put "foo" "bar"] that the store answers is sent on the stub of
    connection 0 and its reply returned. *)
Lemma do_dispatch_by_kind_witness :
  do 1 (Ctx 0) (newOp tTxn "" "") (fresh scripted [])
    = Panicked "Unknown op" (fresh scripted [])
  /\ (forall fuel,
       match do fuel (Ctx 0) (OpPut "foo" "bar" []) (fresh scripted [Reply]) with
       | Panicked _ _ | Blocked _ => False
       | _ => True
       end)
  /\ exists ev out w',
       attempt (Ctx 0) (OpPut "foo" "bar" []) (NewKVClient (Conn 0)) [Reply]
         = Some (ev, out, w')
       /\ sends (Ctx 0) (OpPut "foo" "bar" []) (NewKVClient (Conn 0)) ev
       /\ do 1 (Ctx 0) (OpPut "foo" "bar" []) (fresh scripted [Reply])
          = match out with
            | inl ru =>
                Done (Some ru, None)
                  (after (fresh scripted [Reply]) w'
                     (getRemoteLog ++ [(false, ev)]))
            | inr err =>
                bind (afterFailure (OpPut "foo" "bar" []) err)
                  (fun x => match x with
                            | inr r => ret r
                            | inl _ => do 0 (Ctx 0) (OpPut "foo" "bar" [])
                            end)
                  (after (fresh scripted [Reply]) w'
                     (getRemoteLog ++ [(false, ev)]))
            end.
Proof.
  split; [|split].
  - exact (proj2 (@do_dispatch_by_kind scripted (Ctx 0) (newOp tTxn "" "")
                    (fresh scripted []) eq_refl) eq_refl 0).
  - refine (proj1 (proj1 (@do_dispatch_by_kind scripted (Ctx 0)
                            (OpPut "foo" "bar" []) (fresh scripted [Reply])
                            eq_refl) _)).
    discriminate.
  - destruct (proj1 (proj2 (proj1 (@do_dispatch_by_kind scripted (Ctx 0)
                (OpPut "foo" "bar" []) (fresh scripted [Reply]) eq_refl)
                ltac:(discriminate))))
      as (ev & out & w' & Hat & Hs & Heq & _).
    exists ev, out, w'. split; [exact Hat|]. split; [exact Hs|exact (Heq 0)].
Defined.

(** ** The wire requests *)

(** C6.  The requests [do] sends carry the fields of the descriptor.  For
    a descriptor of kind Range, Put or DeleteRange, the first pass of [do]
    makes an attempt whose request has, for kind Range, [Key], [RangeEnd],
    [Limit] and [Revision] from [key], [end], [limit] and [rev], and
    [SortOrder] and [SortTarget] from the sort option when there is one and
    left at their zero value when there is none; for kind Put, [Key],
    [Value] and [Lease] from [key], [val] and [leaseID]; for kind
    DeleteRange, [Key] and [RangeEnd] from [key] and [end].  Whenever [do]
    returns, its log holds at least one RPC attempt and every RPC attempt in
    it, the retries included, has a request with these fields. *)
Theorem do_request_fields {E : Collaborators} ctx op (s : St) :
  t op <> tTxn -> mu (self s) = false ->
  (exists ev out w',
      attempt ctx op (remote (self s)) (world s) = Some (ev, out, w')
      /\ isRPC (false, ev) = true
      /\ carries op (false, ev)
      /\ forall fuel,
           do (S fuel) ctx op s =
           match out with
           | inl ru =>
               Done (Some ru, None)
                 (after s w' (getRemoteLog ++ [(false, ev)]))
           | inr err =>
               bind (afterFailure op err)
                 (fun x => match x with
                           | inr r => ret r
                           | inl _ => do fuel ctx op
                           end)
                 (after s w' (getRemoteLog ++ [(false, ev)]))
           end)
  /\ (forall fuel r s',
        do fuel ctx op s = Done r s' ->
        exists tr,
          trace s' = trace s ++ tr
          /\ 1 <= rpcAttempts tr
          /\ Forall (carries op) tr)
  /\ exists ev x s1 tr,
    doBody ctx op s = Done x s1
    /\ trace s1 = trace s ++ getRemoteLog ++ (false, ev) :: tr
    /\ rpcAttempts tr = 0
    /\ match ev with
       | EvRange _ _ r _ =>
           t op = tRange
           /\ RangeRequest_Key r = key op
           /\ RangeRequest_RangeEnd r = end_ op
           /\ RangeRequest_Limit r = limit op
           /\ RangeRequest_Revision r = rev op
           /\ match sort op with
              | Some so =>
                  RangeRequest_SortOrder r = pb_SortOrder (Order so)
                  /\ RangeRequest_SortTarget r = pb_SortTarget (Target so)
              | None =>
                  RangeRequest_SortOrder r = 0%Z
                  /\ RangeRequest_SortTarget r = 0%Z
              end
       | EvPut _ _ r _ =>
           t op = tPut
           /\ PutRequest_Key r = key op
           /\ PutRequest_Value r = val op
           /\ PutRequest_Lease r = leaseID op
       | EvDeleteRange _ _ r _ =>
           t op = tDeleteRange
           /\ DeleteRangeRequest_Key r = key op
           /\ DeleteRangeRequest_RangeEnd r = end_ op
       | _ => False
       end.
Proof.
  intros Hk Hmu. split; [|split].
  - destruct (attempt_not_Txn ctx op (remote (self s)) (world s) Hk)
      as (ev & out & w' & Hat).
    exists ev, out, w'. split; [exact Hat|].
    split; [eapply attempt_isRPC; eauto|].
    split; [eapply resends_carries, attempt_resends; eauto|].
    apply do_first_pass; assumption.
  - intros fuel r s' Hd.
    destruct (DoRun_resends _ _ _ _ _ (do_DoRun _ _ _ _ _ _ Hmu Hd))
      as (tr & Htr & Hall & Hn).
    exists tr. split; [exact Htr|]. split; [exact Hn|].
    eapply Forall_impl; [|exact Hall]. apply resends_carries.
  - destruct (doBody_total ctx op s Hk Hmu)
      as (ev & out & w' & x & s1 & tr & Hat & Hb & _ & Htr & Hn).
    exists ev, x, s1, tr. repeat (split; [assumption|]).
    pose proof (attempt_sends _ _ _ _ _ _ _ Hat) as Hs.
    destruct ev; cbn in Hs; try contradiction;
      destruct Hs as (Hkind & _ & _ & ->); split; auto; cbn.
    unfold rangeRequest. destruct (sort op); cbn; repeat split; reflexivity.
Qed.

(** [Put "foo" "bar"] with no option, answered by the store: the only RPC
    of the call is a Put with key [foo], value [bar], lease 0. *)
Lemma do_request_fields_witness :
  exists r s' tr,
    do 1 (Ctx 0) (OpPut "foo" "bar" []) (fresh scripted [Reply]) = Done r s'
    /\ trace s' = tr
    /\ 1 <= rpcAttempts tr
    /\ Forall (carries (newOp tPut "foo" "bar")) tr.
Proof.
  do 2 eexists.
  assert (Hrun : do 1 (Ctx 0) (OpPut "foo" "bar" []) (fresh scripted [Reply])
                 = Done _ _) by (vm_compute; reflexivity).
  destruct (proj1 (proj2 (@do_request_fields scripted (Ctx 0)
              (OpPut "foo" "bar" []) (fresh scripted [Reply])
              ltac:(discriminate) eq_refl)) 1 _ _ Hrun)
    as (tr & Htr & Hn & Hall).
  exists tr. split; [exact Hrun|]. split; [exact Htr|].
  split; [exact Hn|exact Hall].
Defined.
